(** * The string-list metric binding (glean/metrics/string_list.py)

    [StringListMetricType] is a thin wrapper: each method marshals its
    arguments and calls a function of the native library through [_ffi.lib],
    the two recording methods doing so inside a closure handed to
    [Dispatcher.launch].

    The development has three layers.
    - What string_list.py imports but does not define (the native engine
      behind [_ffi.lib], the dispatcher, the two enumerations, the JSON text
      of a stored list) is modelled from the specification; every such
      definition says so.
    - The methods of the class are transcribed from the source, in a small
      state-and-exception monad over a [World] that holds the engine, the
      dispatcher queue and the trace of native calls made so far.
    - The properties of the specification are then stated and proved about
      those methods. *)

From Stdlib Require Import ZArith NArith String Ascii.
From stdpp Require Import gmap strings list fin_maps.

(** ** Values of the host language *)

(** Modelled from the spec: glean/metrics/lifetime.py is not among the
    sources.  The members are those of the data model, [value] numbers them
    in the order in which they are listed there. *)
Inductive Lifetime := Ping | Application | User.

(** Modelled from the spec: the integer of a lifetime (lifetime.py is not
    among the sources), by position in the data model's list. *)
Definition Lifetime_value (l : Lifetime) : Z :=
  match l with Ping => 0 | Application => 1 | User => 2 end.

(** Modelled from the spec: glean/testing (ErrorType) is not among the
    sources.  The four kinds of data-quality error, numbered in the order in
    which the data model lists them. *)
Inductive ErrorType := InvalidValue | InvalidLabel | InvalidState | InvalidOverflow.

(** Modelled from the spec: the integer of an error kind (glean/testing is
    not among the sources), by position in the data model's list. *)
Definition ErrorType_value (e : ErrorType) : Z :=
  match e with
  | InvalidValue => 0 | InvalidLabel => 1 | InvalidState => 2 | InvalidOverflow => 3
  end.

Global Instance ErrorType_eq_dec : EqDecision ErrorType.
Proof. solve_decision. Defined.

Global Instance ErrorType_countable : Countable ErrorType.
Proof.
  refine (inj_countable'
            (fun e => match e with
                      | InvalidValue => 0 | InvalidLabel => 1
                      | InvalidState => 2 | InvalidOverflow => 3
                      end)
            (fun n => match n with
                      | 0 => InvalidValue | 1 => InvalidLabel
                      | 2 => InvalidState | _ => InvalidOverflow
                      end) _).
  by intros [].
Defined.

(** The exceptions a method of the class can end with. *)
Inductive Exception :=
| ValueError (msg : string)
| IndexError
| AttributeError
| JSONDecodeError.

(** An instance of the class: the three attributes [__init__] assigns.
    [_handle] is [None] while the attribute does not exist, which is the
    case [getattr(self, "_handle", 0)] in [__del__] provides for. *)
Record StringListMetricType := {
  _disabled : bool;
  _send_in_pings : list string;
  _handle : option Z
}.

(** The two closures handed to [Dispatcher.launch] (both are called [set] in
    the source).  A closure keeps a reference to [self] and to the argument
    of the method that created it; its body is [Closure.call] below.  The
    argument of [set] is an iterable that the closure reads when it runs;
    the embedding takes the list it yields. *)
Inductive Task :=
| add_set (self : StringListMetricType) (value : string)
| set_set (self : StringListMetricType) (value : list string).

(** ** JSON text of a list of strings *)

(** Modelled from the spec: the engine hands a stored list to the test
    interface as the JSON text of an array of strings, and [test_get_value]
    decodes it with [json.loads].  Neither the serialiser of the engine nor
    the json module is among the sources.  [dumps] writes the compact form
    (no white space, the two-character escapes for the quote, the backslash
    and the five named control characters, a u-escape for the other control
    characters); [loads] reads any JSON array of strings whose characters lie
    in the 8-bit character type of the embedding and rejects everything
    else. *)
Module json.

Definition quote : ascii := "034"%char.
Definition backslash : ascii := "092"%char.

Definition code (c : ascii) : N := N_of_ascii c.

Definition hex_digit (n : N) : ascii :=
  if (n <? 10)%N then ascii_of_N (48 + n) else ascii_of_N (87 + n).

Definition escape_char (c : ascii) : string :=
  let n := code c in
  if (n =? 34)%N then String backslash (String quote EmptyString)
  else if (n =? 92)%N then String backslash (String backslash EmptyString)
  else if (n =? 8)%N then String backslash "b"
  else if (n =? 12)%N then String backslash "f"
  else if (n =? 10)%N then String backslash "n"
  else if (n =? 13)%N then String backslash "r"
  else if (n =? 9)%N then String backslash "t"
  else if (n <? 32)%N then
    String backslash
      (String "u" (String "0" (String "0"
        (String (hex_digit (n / 16)) (String (hex_digit (n mod 16)) EmptyString)))))
  else String c EmptyString.

(** Modelled from the spec: the body of a JSON string literal for [s]. *)
Fixpoint escape (s : string) : string :=
  match s with
  | EmptyString => EmptyString
  | String c s' => escape_char c +:+ escape s'
  end.

Definition literal (s : string) : string :=
  String quote (escape s +:+ String quote EmptyString).

Fixpoint elements (l : list string) : string :=
  match l with
  | [] => EmptyString
  | [s] => literal s
  | s :: l' => literal s +:+ String "," (elements l')
  end.

(** Modelled from the spec: the JSON text of an ordered array of strings,
    as the engine's serialiser (not among the sources) writes it. *)
Definition dumps (l : list string) : string :=
  String "[" (elements l +:+ "]").

Definition hex_value (c : ascii) : option N :=
  let n := code c in
  if ((48 <=? n) && (n <=? 57))%N then Some (n - 48)%N
  else if ((97 <=? n) && (n <=? 102))%N then Some (n - 87)%N
  else if ((65 <=? n) && (n <=? 70))%N then Some (n - 55)%N
  else None.

Definition hex4 (a b c d : ascii) : option N :=
  match hex_value a, hex_value b, hex_value c, hex_value d with
  | Some x, Some y, Some z, Some w => Some (((x * 16 + y) * 16 + z) * 16 + w)%N
  | _, _, _, _ => None
  end.

Definition unescape (e : ascii) : option ascii :=
  let n := code e in
  if (n =? 34)%N then Some quote
  else if (n =? 92)%N then Some backslash
  else if (n =? 47)%N then Some "/"%char
  else if (n =? 98)%N then Some (ascii_of_N 8)
  else if (n =? 102)%N then Some (ascii_of_N 12)
  else if (n =? 110)%N then Some (ascii_of_N 10)
  else if (n =? 114)%N then Some (ascii_of_N 13)
  else if (n =? 116)%N then Some (ascii_of_N 9)
  else None.

Definition whitespace (c : ascii) : bool :=
  let n := code c in
  ((n =? 32) || (n =? 9) || (n =? 10) || (n =? 13))%N.

(** Where the reader is in the text of the array. *)
Inductive scan :=
| Begin                   (* before the opening bracket *)
| Open                    (* after the opening bracket *)
| Value                   (* after a comma *)
| InString (acc : string) (* inside a literal, [acc] read so far *)
| Sep                     (* after a literal *)
| Done.                   (* after the closing bracket *)

Definition snoc (acc : string) (c : ascii) : string :=
  acc +:+ String c EmptyString.

Fixpoint parse (st : scan) (items : list string) (s : string)
  : option (list string) :=
  match s with
  | EmptyString => match st with Done => Some items | _ => None end
  | String c s' =>
    match st with
    | Begin =>
        if whitespace c then parse Begin items s'
        else if (code c =? 91)%N then parse Open items s'
        else None
    | Open =>
        if whitespace c then parse Open items s'
        else if (code c =? 93)%N then parse Done items s'
        else if (code c =? 34)%N then parse (InString EmptyString) items s'
        else None
    | Value =>
        if whitespace c then parse Value items s'
        else if (code c =? 34)%N then parse (InString EmptyString) items s'
        else None
    | InString acc =>
        if (code c =? 34)%N then parse Sep (items ++ [acc]) s'
        else if (code c =? 92)%N then
          match s' with
          | EmptyString => None
          | String e s'' =>
            match unescape e with
            | Some d => parse (InString (snoc acc d)) items s''
            | None =>
              if (code e =? 117)%N then
                match s'' with
                | String h1 (String h2 (String h3 (String h4 s5))) =>
                  match hex4 h1 h2 h3 h4 with
                  | Some n =>
                      if (n <? 256)%N
                      then parse (InString (snoc acc (ascii_of_N n))) items s5
                      else None
                  | None => None
                  end
                | _ => None
                end
              else None
            end
          end
        else if (code c <? 32)%N then None
        else parse (InString (snoc acc c)) items s'
    | Sep =>
        if whitespace c then parse Sep items s'
        else if (code c =? 44)%N then parse Value items s'
        else if (code c =? 93)%N then parse Done items s'
        else None
    | Done =>
        if whitespace c then parse Done items s' else None
    end
  end.

(** Modelled from the spec: json.loads (not among the sources) on the text
    of an array of strings. *)
Definition loads (s : string) : option (list string) := parse Begin [] s.

End json.

(** ** The native engine *)

(** Modelled from the spec: the two limits are fixed constants of the
    engine whose values string_list.py does not show; the development is
    parametric in them. *)
Class Limits := {
  MAX_LIST_LENGTH : nat;
  MAX_STRING_LENGTH : nat
}.

(** Modelled from the spec: the definition of a metric as the engine keeps
    it from registration on (data model, MetricDefinition). *)
Record MetricDefinition := {
  disabled : bool;
  category : string;
  name : string;
  lifetime : Lifetime;
  sendInPings : list string
}.

(** Modelled from the spec: the state of the engine.  [registry] maps the
    live handles to the definitions they refer to and [next_handle] is the
    next handle to give out; [store] is the Metric Store, one list per metric
    identity (category, name) and destination ping; [errors] holds the
    counters of the Error Recorder, one per metric identity, kind and ping.
    Persistence, lifetimes and the ping serialiser play no part in what the
    binding does and are left out. *)
Record Engine := {
  registry : gmap Z MetricDefinition;
  next_handle : positive;
  store : gmap (string * string * string) (list string);
  errors : gmap (string * string * ErrorType * string) nat
}.

(** Modelled from the spec: the Validator.  A list longer than
    MAX_LIST_LENGTH is cut to its first MAX_LIST_LENGTH entries and counts
    one InvalidOverflow; each entry kept that is longer than
    MAX_STRING_LENGTH is cut to that length and counts one InvalidOverflow.
    The result is always usable. *)
Module Validator.

(** Modelled from the spec: an over-long entry is cut to the limit, not
    dropped. *)
Definition truncate `{Limits} (s : string) : string :=
  substring 0 MAX_STRING_LENGTH s.

(** Modelled from the spec: the test for an entry beyond the limit. *)
Definition too_long `{Limits} (s : string) : bool :=
  MAX_STRING_LENGTH <? String.length s.

(** Modelled from the spec: validate(candidateList) of the Validator. *)
Definition validate `{Limits} (candidateList : list string)
  : list string * list ErrorType :=
  let kept := take MAX_LIST_LENGTH candidateList in
  let overflow :=
    if MAX_LIST_LENGTH <? length candidateList then [InvalidOverflow] else [] in
  (truncate <$> kept,
   overflow ++ ((fun _ => InvalidOverflow) <$> List.filter too_long kept)).

End Validator.

(** Modelled from the spec: the Error Recorder, counters that only grow,
    kept separately for each destination ping. *)
Module ErrorRecorder.

(** Modelled from the spec: count(def, kind, pingName). *)
Definition count (def : MetricDefinition) (kind : ErrorType) (pingName : string)
           (E : Engine) : nat :=
  default 0 (errors E !! (category def, name def, kind, pingName)).

(** Modelled from the spec: record(def, kind, pingName). *)
Definition record (def : MetricDefinition) (kind : ErrorType) (pingName : string)
           (E : Engine) : Engine :=
  {| registry := registry E;
     next_handle := next_handle E;
     store := store E;
     errors := <[(category def, name def, kind, pingName) :=
                   S (count def kind pingName E)]> (errors E) |}.

(** Modelled from the spec: [record], once for each error of a validation. *)
Definition record_all (def : MetricDefinition) (kinds : list ErrorType)
           (pingName : string) (E : Engine) : Engine :=
  foldl (fun E' kind => record def kind pingName E') E kinds.

End ErrorRecorder.

(** Modelled from the spec: the Metric Store.  [replace] discards the list
    stored for the ping and writes the validated new one; [append] reads the
    stored list, concatenates the validated new values, validates the
    concatenation again and writes it back.  Every violation the Validator
    reports is recorded for the ping written.  Neither looks at [disabled]:
    that test is the caller's. *)
Module MetricStore.

(** Modelled from the spec: getValue(def, pingName), absent when nothing
    was written. *)
Definition getValue (def : MetricDefinition) (pingName : string) (E : Engine)
  : option (list string) :=
  store E !! (category def, name def, pingName).

(** Modelled from the spec: the write-back common to both writes. *)
Definition write (def : MetricDefinition) (pingName : string)
           (values : list string) (E : Engine) : Engine :=
  {| registry := registry E;
     next_handle := next_handle E;
     store := <[(category def, name def, pingName) := values]> (store E);
     errors := errors E |}.

(** Modelled from the spec: replace(def, pingName, values). *)
Definition replace `{Limits} (def : MetricDefinition) (pingName : string)
           (values : list string) (E : Engine) : Engine :=
  let '(accepted, errs) := Validator.validate values in
  ErrorRecorder.record_all def errs pingName (write def pingName accepted E).

(** Modelled from the spec: append(def, pingName, values). *)
Definition append `{Limits} (def : MetricDefinition) (pingName : string)
           (values : list string) (E : Engine) : Engine :=
  let current := default [] (getValue def pingName E) in
  let '(new, errs1) := Validator.validate values in
  let '(accepted, errs2) := Validator.validate (current ++ new) in
  ErrorRecorder.record_all def (errs1 ++ errs2) pingName
    (write def pingName accepted E).

End MetricStore.

(** Modelled from the spec: the boundary operations of the engine, on
    handles.  [register] gives out a fresh non-zero handle; [dispose]
    forgets the handle and leaves what the Metric Store owns in place; a
    handle that is not live is ignored by the writers and reads as "no
    value" and "no error".  A write goes to every destination ping of the
    definition, in the order of [sendInPings]. *)
Module Engine.

(** Modelled from the spec: the engine before the first registration. *)
Definition empty : Engine :=
  {| registry := ∅; next_handle := 1%positive; store := ∅; errors := ∅ |}.

(** Modelled from the spec: register(category, name, sendInPings, lifetime,
    disabled), giving out the next handle. *)
Definition register (category name : string) (sendInPings : list string)
           (lifetime : Lifetime) (disabled : bool) (E : Engine) : Z * Engine :=
  let h := Z.pos (next_handle E) in
  (h,
   {| registry :=
        <[h := {| disabled := disabled; category := category; name := name;
                  lifetime := lifetime; sendInPings := sendInPings |}]>
          (registry E);
      next_handle := Pos.succ (next_handle E);
      store := store E;
      errors := errors E |}).

(** Modelled from the spec: dispose(handle); on a handle that is not live
    it changes nothing. *)
Definition dispose (h : Z) (E : Engine) : Engine :=
  {| registry := delete h (registry E);
     next_handle := next_handle E;
     store := store E;
     errors := errors E |}.

(** Modelled from the spec: add(handle, value) as the engine applies it. *)
Definition add `{Limits} (h : Z) (value : string) (E : Engine) : Engine :=
  match registry E !! h with
  | None => E
  | Some def =>
      foldl (fun E' pingName => MetricStore.append def pingName [value] E')
            E (sendInPings def)
  end.

(** Modelled from the spec: set(handle, values) as the engine applies it. *)
Definition set `{Limits} (h : Z) (values : list string) (E : Engine) : Engine :=
  match registry E !! h with
  | None => E
  | Some def =>
      foldl (fun E' pingName => MetricStore.replace def pingName values E')
            E (sendInPings def)
  end.

(** Modelled from the spec: the read behind testGetValue. *)
Definition testGetValue (h : Z) (pingName : string) (E : Engine)
  : option (list string) :=
  match registry E !! h with
  | None => None
  | Some def => MetricStore.getValue def pingName E
  end.

(** Modelled from the spec: the read behind testHasValue. *)
Definition testHasValue (h : Z) (pingName : string) (E : Engine) : bool :=
  bool_decide (is_Some (testGetValue h pingName E)).

(** Modelled from the spec: the read behind testGetNumRecordedErrors. *)
Definition testGetNumRecordedErrors (h : Z) (errorKind : ErrorType)
           (pingName : string) (E : Engine) : nat :=
  match registry E !! h with
  | None => 0
  | Some def => ErrorRecorder.count def errorKind pingName E
  end.

End Engine.


(** ** The world of the binding *)

(** The calls into the native library, with their arguments as marshalled;
    [World] keeps the trace of those made so far. *)
Module native.

Inductive call :=
| glean_new_string_list_metric
    (category name : string) (send_in_pings : list string) (len : nat)
    (lifetime : Z) (disabled : bool)
| glean_destroy_string_list_metric (handle : Z)
| glean_string_list_add (handle : Z) (value : string)
| glean_string_list_set (handle : Z) (values : list string) (len : nat)
| glean_string_list_test_has_value (handle : Z) (ping_name : string)
| glean_string_list_test_get_value_as_json_string (handle : Z) (ping_name : string)
| glean_string_list_test_get_num_recorded_errors
    (handle : Z) (error_type : Z) (ping_name : string).

End native.

(** Everything outside the object that a method can read or change: the
    engine, the queue of the dispatcher (oldest task first), and the trace
    of native calls. *)
Record World := {
  engine : Engine;
  queue : list Task;
  calls : list native.call
}.

(** A method either returns a value or raises; both leave a world behind. *)
Inductive Result (A : Type) :=
| Return (a : A)
| Raise (e : Exception).

Arguments Return {A} a.
Arguments Raise {A} e.

Definition M (A : Type) : Type := World -> Result A * World.

Definition ret {A} (a : A) : M A := fun W => (Return a, W).

Definition raise {A} (e : Exception) : M A := fun W => (Raise e, W).

Definition bind {A B} (m : M A) (k : A -> M B) : M B :=
  fun W =>
    match m W with
    | (Return a, W') => k a W'
    | (Raise e, W') => (Raise e, W')
    end.

Notation "x <- c ;; k" := (bind c (fun x => k))
  (at level 100, c at next level, right associativity).

Notation "c ;; k" := (bind c (fun _ => k))
  (at level 100, right associativity).

(** [self._handle]: the attribute, or AttributeError when it was never
    assigned. *)
Definition self_handle (self : StringListMetricType) : M Z :=
  match _handle self with
  | Some h => ret h
  | None => raise AttributeError
  end.

(** [getattr(self, "_handle", default)]. *)
Definition getattr_handle (self : StringListMetricType) (default : Z) : Z :=
  match _handle self with
  | Some h => h
  | None => default
  end.

(** [l[0]] on a list. *)
Definition subscript0 (l : list string) : M string :=
  match l with
  | x :: _ => ret x
  | [] => raise IndexError
  end.

(** [bool(x)] on an integer. *)
Definition bool_of_int (x : Z) : bool := negb (x =? 0)%Z.

(** Modelled from the spec: glean/_ffi is not among the sources.  The
    marshalling helpers keep the content of what they convert; a native
    function appends itself to the trace and does to the engine what the
    boundary operation of the same name does.  Integers cross the boundary
    as such: a lifetime or error kind that is not the value of a member is
    answered with the null handle, respectively with zero errors; the length
    passed with an array says how many of its entries are read; the JSON
    text asked for a value that is absent is that of the empty array (the
    class never asks: it tests for the value first). *)
Module _ffi.

(** Modelled from the spec: the three marshalling helpers of glean/_ffi;
    what arrives on the other side is what was sent. *)
Definition ffi_encode_string (s : string) : string := s.
Definition ffi_encode_vec_string (l : list string) : list string := l.
Definition ffi_decode_string (s : string) : string := s.

(** Modelled from the spec: how the engine reads the two kinds of integer. *)
Definition lifetime_of_value (v : Z) : option Lifetime :=
  if (v =? 0)%Z then Some Ping
  else if (v =? 1)%Z then Some Application
  else if (v =? 2)%Z then Some User
  else None.

Definition error_type_of_value (v : Z) : option ErrorType :=
  if (v =? 0)%Z then Some InvalidValue
  else if (v =? 1)%Z then Some InvalidLabel
  else if (v =? 2)%Z then Some InvalidState
  else if (v =? 3)%Z then Some InvalidOverflow
  else None.

(** Modelled from the spec: a native call is put on the trace and acts on
    the engine alone. *)
Definition invoke {A} (c : native.call) (f : Engine -> A * Engine) : M A :=
  fun W =>
    let '(a, E) := f (engine W) in
    (Return a, {| engine := E; queue := queue W; calls := calls W ++ [c] |}).

Module lib.

Definition glean_new_string_list_metric
           (category name : string) (send_in_pings : list string) (len : nat)
           (lifetime : Z) (disabled : bool) : M Z :=
  invoke (native.glean_new_string_list_metric
            category name send_in_pings len lifetime disabled)
         (fun E =>
            match lifetime_of_value lifetime with
            | Some l =>
                Engine.register category name (take len send_in_pings) l disabled E
            | None => (0%Z, E)
            end).

Definition glean_destroy_string_list_metric (handle : Z) : M unit :=
  invoke (native.glean_destroy_string_list_metric handle)
         (fun E => (tt, Engine.dispose handle E)).

Definition glean_string_list_add `{Limits} (handle : Z) (value : string) : M unit :=
  invoke (native.glean_string_list_add handle value)
         (fun E => (tt, Engine.add handle value E)).

Definition glean_string_list_set `{Limits}
           (handle : Z) (values : list string) (len : nat) : M unit :=
  invoke (native.glean_string_list_set handle values len)
         (fun E => (tt, Engine.set handle (take len values) E)).

Definition glean_string_list_test_has_value (handle : Z) (ping_name : string) : M Z :=
  invoke (native.glean_string_list_test_has_value handle ping_name)
         (fun E => ((if Engine.testHasValue handle ping_name E then 1 else 0)%Z, E)).

Definition glean_string_list_test_get_value_as_json_string
           (handle : Z) (ping_name : string) : M string :=
  invoke (native.glean_string_list_test_get_value_as_json_string handle ping_name)
         (fun E => (json.dumps (default [] (Engine.testGetValue handle ping_name E)), E)).

Definition glean_string_list_test_get_num_recorded_errors
           (handle : Z) (error_type : Z) (ping_name : string) : M Z :=
  invoke (native.glean_string_list_test_get_num_recorded_errors
            handle error_type ping_name)
         (fun E =>
            (match error_type_of_value error_type with
             | Some kind =>
                 Z.of_nat (Engine.testGetNumRecordedErrors handle kind ping_name E)
             | None => 0%Z
             end, E)).

End lib.

End _ffi.

(** [json.loads] as the method uses it: the decoded list, or the decoding
    error. *)
Definition json_loads (s : string) : M (list string) :=
  match json.loads s with
  | Some l => ret l
  | None => raise JSONDecodeError
  end.

(** ** The closures and the dispatcher *)

(** The bodies of the two closures (string_list.py, lines 69 and 85-88):
    what calling the closure does.  [list(value)] of a list is the list. *)
Module Closure.

Definition call `{Limits} (func : Task) : M unit :=
  match func with
  | add_set self value =>
      h <- self_handle self ;;
      _ffi.lib.glean_string_list_add h (_ffi.ffi_encode_string value)
  | set_set self value =>
      let values := value in
      h <- self_handle self ;;
      _ffi.lib.glean_string_list_set
        h (_ffi.ffi_encode_vec_string values) (length values)
  end.

End Closure.

(** Modelled from the spec: glean/_dispatcher is not among the sources.
    [launch] appends the task to one first-in first-out queue and returns at
    once (fire and forget, unbounded capacity).  The single worker takes the
    oldest task off the queue and calls it ([step]); an exception inside a
    task ends that task only.  [drain] is the barrier: it lets the worker
    run until every task queued so far has been called. *)
Module Dispatcher.

(** Modelled from the spec: submitting a task (glean/_dispatcher is not
    among the sources): it joins the end of the queue. *)
Definition launch (func : Task) : M unit :=
  fun W =>
    (Return tt,
     {| engine := engine W; queue := queue W ++ [func]; calls := calls W |}).

(** Modelled from the spec: the worker runs the oldest task. *)
Definition step `{Limits} (W : World) : World :=
  match queue W with
  | [] => W
  | func :: rest =>
      snd (Closure.call func
             {| engine := engine W; queue := rest; calls := calls W |})
  end.

(** Modelled from the spec: the barrier, one step for each task queued. *)
Definition drain `{Limits} (W : World) : World :=
  Nat.iter (length (queue W)) step W.

End Dispatcher.

(** ** The class (string_list.py) *)

Module StringListMetricType.

(** Lines 31-49. *)
Definition __init__ (disabled : bool) (category : string) (lifetime : Lifetime)
           (name : string) (send_in_pings : list string)
  : M StringListMetricType :=
  handle <- _ffi.lib.glean_new_string_list_metric
              (_ffi.ffi_encode_string category)
              (_ffi.ffi_encode_string name)
              (_ffi.ffi_encode_vec_string send_in_pings)
              (length send_in_pings)
              (Lifetime_value lifetime)
              disabled ;;
  ret {| _disabled := disabled;
         _send_in_pings := send_in_pings;
         _handle := Some handle |}.

(** Lines 51-53. *)
Definition __del__ (self : StringListMetricType) : M unit :=
  if negb (getattr_handle self 0 =? 0)%Z then
    h <- self_handle self ;;
    _ffi.lib.glean_destroy_string_list_metric h
  else ret tt.

(** Lines 55-69. *)
Definition add (self : StringListMetricType) (value : string) : M unit :=
  if _disabled self then ret tt
  else Dispatcher.launch (add_set self value).

(** Lines 71-88. *)
Definition set (self : StringListMetricType) (value : list string) : M unit :=
  if _disabled self then ret tt
  else Dispatcher.launch (set_set self value).

(** Lines 90-109. *)
Definition test_has_value (self : StringListMetricType) (ping_name : option string)
  : M bool :=
  ping_name <- match ping_name with
               | None => subscript0 (_send_in_pings self)
               | Some p => ret p
               end ;;
  h <- self_handle self ;;
  r <- _ffi.lib.glean_string_list_test_has_value
         h (_ffi.ffi_encode_string ping_name) ;;
  ret (bool_of_int r).

(** Lines 111-134. *)
Definition test_get_value (self : StringListMetricType) (ping_name : option string)
  : M (list string) :=
  ping_name <- match ping_name with
               | None => subscript0 (_send_in_pings self)
               | Some p => ret p
               end ;;
  has_value <- test_has_value self (Some ping_name) ;;
  if negb has_value then raise (ValueError "metric has no value")
  else
    h <- self_handle self ;;
    s <- _ffi.lib.glean_string_list_test_get_value_as_json_string
           h (_ffi.ffi_encode_string ping_name) ;;
    json_loads (_ffi.ffi_decode_string s).

(** Lines 136-158. *)
Definition test_get_num_recorded_errors
           (self : StringListMetricType) (error_type : ErrorType)
           (ping_name : option string) : M Z :=
  ping_name <- match ping_name with
               | None => subscript0 (_send_in_pings self)
               | Some p => ret p
               end ;;
  h <- self_handle self ;;
  _ffi.lib.glean_string_list_test_get_num_recorded_errors
    h (ErrorType_value error_type) (_ffi.ffi_encode_string ping_name).

End StringListMetricType.

(** The world before anything has happened. *)
Definition World_empty : World :=
  {| engine := Engine.empty; queue := []; calls := [] |}.

(** ** Vocabulary of the statements *)

(** The ping a test method consults: the one given, else the first of
    [_send_in_pings], if there is one. *)
Definition default_ping (self : StringListMetricType) (ping_name : option string)
  : option string :=
  match ping_name with
  | Some p => Some p
  | None => head (_send_in_pings self)
  end.

(** The world with further native calls on its trace. *)
Definition traced (W : World) (cs : list native.call) : World :=
  {| engine := engine W; queue := queue W; calls := calls W ++ cs |}.

(** The object holds handle [h] and the engine knows it as [def]. *)
Definition live (W : World) (self : StringListMetricType) (h : Z)
           (def : MetricDefinition) : Prop :=
  _handle self = Some h /\ registry (engine W) !! h = Some def.

(** How many times the trace asks the engine to destroy handle [h]. *)
Definition destroys (h : Z) (cs : list native.call) : nat :=
  length (List.filter
            (fun c => match c with
                      | native.glean_destroy_string_list_metric h' => bool_decide (h' = h)
                      | _ => false
                      end) cs).

(** What calling a closure does to the engine. *)
Definition Task_effect `{Limits} (func : Task) (E : Engine) : Engine :=
  engine (snd (Closure.call func {| engine := E; queue := []; calls := [] |})).

(** A string within the limit on its length. *)
Definition short `{Limits} (s : string) : Prop :=
  String.length s <= MAX_STRING_LENGTH.

(** The limits and the metric of the scenarios of the specification:
    category "tags", name "list1", lifetime Ping, sent in "metrics", enabled,
    with at most 20 entries; the limit of 50 characters is the example's
    own. *)
Definition scenario_limits : Limits :=
  {| MAX_LIST_LENGTH := 20; MAX_STRING_LENGTH := 50 |}.

Definition list1 : StringListMetricType :=
  {| _disabled := false; _send_in_pings := ["metrics"]; _handle := Some 1%Z |}.

Definition list1_def : MetricDefinition :=
  {| disabled := false; category := "tags"; name := "list1";
     lifetime := Ping; sendInPings := ["metrics"] |}.

Definition list1_world : World :=
  snd (StringListMetricType.__init__ false "tags" Ping "list1" ["metrics"]
         World_empty).

(** The same metric, registered as disabled. *)
Definition list1_off : StringListMetricType :=
  {| _disabled := true; _send_in_pings := ["metrics"]; _handle := Some 1%Z |}.

Definition list1_off_world : World :=
  snd (StringListMetricType.__init__ true "tags" Ping "list1" ["metrics"]
         World_empty).

(** A metric that is sent in no ping at all. *)
Definition no_pings : StringListMetricType :=
  {| _disabled := false; _send_in_pings := []; _handle := Some 1%Z |}.

(** An object whose [__init__] did not get as far as assigning [_handle]. *)
Definition unfinished : StringListMetricType :=
  {| _disabled := false; _send_in_pings := ["metrics"]; _handle := None |}.

(** A string of [n] letters a. *)
Fixpoint letters (n : nat) : string :=
  match n with
  | 0 => EmptyString
  | S n' => String "a" (letters n')
  end.

(** A write of the Metric Store as a function of the list it finds:
    [update def p f] reads the list stored for the ping, writes the list [f]
    accepts and records the errors [f] reports.  [replace_step] and
    [append_step] are the functions of the two writes, [then_step] is one
    write followed by another on the same ping. *)
Definition update (def : MetricDefinition) (pingName : string)
           (f : option (list string) -> list string * list ErrorType)
           (E : Engine) : Engine :=
  let '(accepted, errs) := f (MetricStore.getValue def pingName E) in
  ErrorRecorder.record_all def errs pingName
    (MetricStore.write def pingName accepted E).

Definition replace_step `{Limits} (values : list string)
  : option (list string) -> list string * list ErrorType :=
  fun _ => Validator.validate values.

Definition append_step `{Limits} (values : list string)
  : option (list string) -> list string * list ErrorType :=
  fun cur =>
    let '(new, errs1) := Validator.validate values in
    let '(accepted, errs2) := Validator.validate (default [] cur ++ new) in
    (accepted, errs1 ++ errs2).

Definition then_step (f g : option (list string) -> list string * list ErrorType)
  : option (list string) -> list string * list ErrorType :=
  fun cur =>
    let '(a1, e1) := f cur in
    let '(a2, e2) := g (Some a1) in
    (a2, e1 ++ e2).

(** The same write to each ping of a list, in order. *)
Definition update_all (def : MetricDefinition)
           (f : option (list string) -> list string * list ErrorType)
           (pings : list string) (E : Engine) : Engine :=
  foldl (fun E' pingName => update def pingName f E') E pings.

(** The counters after one more error, and after a list of errors, of a
    metric and ping. *)
Definition bump (k : string * string * ErrorType * string)
           (m : gmap (string * string * ErrorType * string) nat)
  : gmap (string * string * ErrorType * string) nat :=
  <[k := S (default 0 (m !! k))]> m.

Definition bump_all (def : MetricDefinition) (pingName : string)
           (kinds : list ErrorType)
           (m : gmap (string * string * ErrorType * string) nat)
  : gmap (string * string * ErrorType * string) nat :=
  foldl (fun m' kind => bump (category def, name def, kind, pingName) m') m kinds.

(** How often a kind occurs among the errors of a validation. *)
Definition occurrences (kind : ErrorType) (kinds : list ErrorType) : nat :=
  length (List.filter (fun k => bool_decide (k = kind)) kinds).

(** The metric of the scenarios with its ping listed twice, as [__init__]
    builds it, and limits that leave no room for any entry. *)
Definition list1_twice : StringListMetricType :=
  {| _disabled := false; _send_in_pings := ["metrics"; "metrics"];
     _handle := Some 1%Z |}.

Definition list1_twice_world : World :=
  snd (StringListMetricType.__init__ false "tags" Ping "list1"
         ["metrics"; "metrics"] World_empty).

Definition no_room_limits : Limits :=
  {| MAX_LIST_LENGTH := 0; MAX_STRING_LENGTH := 50 |}.

(** A recording call as a user writes it, [m.add(v)] or [m.set(vs)], and a
    program that is a sequence of such calls. *)
Inductive Recording :=
| rec_add (self : StringListMetricType) (value : string)
| rec_set (self : StringListMetricType) (value : list string).

Definition Recording_call (r : Recording) : M unit :=
  match r with
  | rec_add self value => StringListMetricType.add self value
  | rec_set self value => StringListMetricType.set self value
  end.

Fixpoint Recording_run (rs : list Recording) (W : World) : World :=
  match rs with
  | [] => W
  | r :: rs' => Recording_run rs' (snd (Recording_call r W))
  end.

(** Whether the object of the call is enabled, and the closure the call
    creates. *)
Definition Recording_enabled (r : Recording) : bool :=
  match r with
  | rec_add self _ | rec_set self _ => negb (_disabled self)
  end.

Definition Recording_task (r : Recording) : Task :=
  match r with
  | rec_add self value => add_set self value
  | rec_set self value => set_set self value
  end.

(** The native call a closure makes when it is called: none when its object
    has no handle, else the one call of its body, with the handle, the
    argument, and for a list its length. *)
Definition Task_native (func : Task) : list native.call :=
  match func with
  | add_set self value =>
      match _handle self with
      | Some h => [native.glean_string_list_add h value]
      | None => []
      end
  | set_set self value =>
      match _handle self with
      | Some h => [native.glean_string_list_set h value (length value)]
      | None => []
      end
  end.

(** What that call does to the engine. *)
Definition Task_native_effect `{Limits} (func : Task) (E : Engine) : Engine :=
  match func with
  | add_set self value =>
      match _handle self with
      | Some h => Engine.add h value E
      | None => E
      end
  | set_set self value =>
      match _handle self with
      | Some h => Engine.set h value E
      | None => E
      end
  end.

(** ** The JSON text reads back as the list written *)

Module json_facts.

Lemma append_String (x : ascii) (a b : string) :
  String x a +:+ b = String x (a +:+ b).
Proof. reflexivity. Qed.

Lemma append_String_assoc (a b c : string) :
  (a +:+ b) +:+ c = a +:+ (b +:+ c).
Proof.
  induction a as [|x a IH]; [reflexivity |].
  rewrite !append_String. by f_equal.
Qed.

Lemma snoc_append (acc : string) (c : ascii) (s : string) :
  json.snoc acc c +:+ s = acc +:+ String c s.
Proof. unfold json.snoc. by rewrite append_String_assoc. Qed.

Lemma append_empty_r (a : string) : a +:+ EmptyString = a.
Proof.
  induction a as [|x a IH]; [reflexivity |].
  rewrite append_String. by f_equal.
Qed.

(** One escaped character is read back as that character. *)
Lemma parse_escape_char (c : ascii) (acc : string) (items : list string)
      (rest : string) :
  json.parse (json.InString acc) items (json.escape_char c +:+ rest)
  = json.parse (json.InString (json.snoc acc c)) items rest.
Proof. destruct c as [[] [] [] [] [] [] [] []]; reflexivity. Qed.

Lemma parse_escape (s : string) :
  forall (acc : string) (items : list string) (rest : string),
    json.parse (json.InString acc) items (json.escape s +:+ rest)
    = json.parse (json.InString (acc +:+ s)) items rest.
Proof.
  induction s as [|c s IH]; intros acc items rest.
  - by rewrite append_empty_r.
  - change (json.escape (String c s)) with (json.escape_char c +:+ json.escape s).
    rewrite append_String_assoc, parse_escape_char, IH.
    by rewrite snoc_append.
Qed.

Lemma parse_quote (st : json.scan) (items : list string) (s : string) :
  st = json.Open \/ st = json.Value ->
  json.parse st items (String json.quote s)
  = json.parse (json.InString EmptyString) items s.
Proof. intros [-> | ->]; reflexivity. Qed.

(** A literal, met where a value may start, adds its string to the items. *)
Lemma parse_literal (st : json.scan) (s : string) (items : list string)
      (rest : string) :
  st = json.Open \/ st = json.Value ->
  json.parse st items (json.literal s +:+ rest)
  = json.parse json.Sep (items ++ [s]) rest.
Proof.
  intros Hst. unfold json.literal.
  rewrite append_String, append_String_assoc, parse_quote by assumption.
  rewrite parse_escape. reflexivity.
Qed.

Lemma parse_elements (l : list string) :
  forall (st : json.scan) (items : list string) (s : string),
    st = json.Open \/ st = json.Value ->
    json.parse st items (json.elements (s :: l) +:+ "]")
    = Some (items ++ s :: l).
Proof.
  induction l as [|s' l IH]; intros st items s Hst.
  - simpl json.elements. rewrite parse_literal by assumption. reflexivity.
  - change (json.elements (s :: s' :: l))
      with (json.literal s +:+ String "," (json.elements (s' :: l))).
    rewrite append_String_assoc, parse_literal by assumption.
    change (json.parse json.Sep (items ++ [s])
              (String "," (json.elements (s' :: l)) +:+ "]"))
      with (json.parse json.Value (items ++ [s])
              (json.elements (s' :: l) +:+ "]")).
    rewrite IH by (by right). by rewrite <- app_assoc.
Qed.

Lemma loads_dumps (l : list string) : json.loads (json.dumps l) = Some l.
Proof.
  unfold json.loads, json.dumps. destruct l as [|s l].
  - reflexivity.
  - change (json.parse json.Begin [] (String "[" (json.elements (s :: l) +:+ "]")))
      with (json.parse json.Open [] (json.elements (s :: l) +:+ "]")).
    by rewrite parse_elements by (by left).
Qed.

End json_facts.

(** ** The Error Recorder and the Metric Store, field by field *)

Lemma Engine_eq (E1 E2 : Engine) :
  registry E1 = registry E2 -> next_handle E1 = next_handle E2 ->
  store E1 = store E2 -> errors E1 = errors E2 -> E1 = E2.
Proof. destruct E1, E2; simpl; congruence. Qed.

Lemma record_all_cons def kind kinds p E :
  ErrorRecorder.record_all def (kind :: kinds) p E
  = ErrorRecorder.record_all def kinds p (ErrorRecorder.record def kind p E).
Proof. reflexivity. Qed.

Lemma record_all_registry def kinds p E :
  registry (ErrorRecorder.record_all def kinds p E) = registry E.
Proof.
  revert E; induction kinds as [|k kinds IH]; intros E; [reflexivity |].
  by rewrite record_all_cons, IH.
Qed.

Lemma record_all_next_handle def kinds p E :
  next_handle (ErrorRecorder.record_all def kinds p E) = next_handle E.
Proof.
  revert E; induction kinds as [|k kinds IH]; intros E; [reflexivity |].
  by rewrite record_all_cons, IH.
Qed.

Lemma record_all_store def kinds p E :
  store (ErrorRecorder.record_all def kinds p E) = store E.
Proof.
  revert E; induction kinds as [|k kinds IH]; intros E; [reflexivity |].
  by rewrite record_all_cons, IH.
Qed.

Lemma record_all_errors def kinds p E :
  errors (ErrorRecorder.record_all def kinds p E)
  = bump_all def p kinds (errors E).
Proof.
  revert E; induction kinds as [|k kinds IH]; intros E; [reflexivity |].
  by rewrite record_all_cons, IH.
Qed.

Lemma update_fields def p f E :
  registry (update def p f E) = registry E
  /\ next_handle (update def p f E) = next_handle E
  /\ store (update def p f E)
     = <[(category def, name def, p) := fst (f (MetricStore.getValue def p E))]>
         (store E)
  /\ errors (update def p f E)
     = bump_all def p (snd (f (MetricStore.getValue def p E))) (errors E).
Proof.
  unfold update. destruct (f (MetricStore.getValue def p E)) as [a e]. simpl.
  by rewrite record_all_registry, record_all_next_handle, record_all_store,
    record_all_errors.
Qed.

Lemma update_registry def p f E : registry (update def p f E) = registry E.
Proof. apply update_fields. Qed.

Lemma update_next_handle def p f E : next_handle (update def p f E) = next_handle E.
Proof. apply update_fields. Qed.

Lemma update_store def p f E :
  store (update def p f E)
  = <[(category def, name def, p) := fst (f (MetricStore.getValue def p E))]>
      (store E).
Proof. apply update_fields. Qed.

Lemma update_errors def p f E :
  errors (update def p f E)
  = bump_all def p (snd (f (MetricStore.getValue def p E))) (errors E).
Proof. apply update_fields. Qed.

(** What a read finds after a write. *)
Lemma getValue_update def p q f E :
  MetricStore.getValue def q (update def p f E)
  = if decide (p = q) then Some (fst (f (MetricStore.getValue def p E)))
    else MetricStore.getValue def q E.
Proof.
  unfold MetricStore.getValue at 1. rewrite update_store.
  destruct (decide (p = q)) as [-> | Hne].
  - by rewrite lookup_insert_eq.
  - rewrite lookup_insert_ne; [reflexivity | congruence].
Qed.

Lemma bump_lookup k k' m :
  default 0 (bump k m !! k')
  = default 0 (m !! k') + (if decide (k = k') then 1 else 0).
Proof.
  unfold bump. destruct (decide (k = k')) as [-> | Hne].
  - rewrite lookup_insert_eq. simpl. lia.
  - rewrite lookup_insert_ne by assumption. lia.
Qed.

Lemma bump_comm k k' m : k <> k' -> bump k (bump k' m) = bump k' (bump k m).
Proof.
  intros Hne. unfold bump.
  rewrite (lookup_insert_ne m k' k) by congruence.
  rewrite (lookup_insert_ne m k k') by congruence.
  by apply insert_insert_ne.
Qed.

Lemma bump_all_cons def p kind kinds m :
  bump_all def p (kind :: kinds) m
  = bump_all def p kinds (bump (category def, name def, kind, p) m).
Proof. reflexivity. Qed.

Lemma bump_all_app def p kinds1 kinds2 m :
  bump_all def p (kinds1 ++ kinds2) m
  = bump_all def p kinds2 (bump_all def p kinds1 m).
Proof. apply foldl_app. Qed.

Lemma bump_bump_all def p kinds k m :
  (forall kind, (category def, name def, kind, p) <> k) ->
  bump k (bump_all def p kinds m) = bump_all def p kinds (bump k m).
Proof.
  intros Hk. revert m; induction kinds as [|kind kinds IH]; intros m;
    [reflexivity |].
  rewrite !bump_all_cons, IH. f_equal. apply bump_comm. intros Heq.
  by apply (Hk kind).
Qed.

Lemma bump_all_comm def p q kinds1 kinds2 m :
  p <> q ->
  bump_all def p kinds1 (bump_all def q kinds2 m)
  = bump_all def q kinds2 (bump_all def p kinds1 m).
Proof.
  intros Hne. revert m; induction kinds1 as [|kind kinds1 IH]; intros m;
    [reflexivity |].
  rewrite !bump_all_cons, <- IH. f_equal.
  apply bump_bump_all. intros kind'. congruence.
Qed.

(** A counter grows by the number of errors of its kind recorded for its
    ping, and by nothing else. *)
Lemma bump_all_lookup def p q kind kinds m :
  default 0 (bump_all def p kinds m !! (category def, name def, kind, q))
  = default 0 (m !! (category def, name def, kind, q))
    + (if decide (p = q) then occurrences kind kinds else 0).
Proof.
  revert m; induction kinds as [|k kinds IH]; intros m.
  - simpl. destruct (decide (p = q)); unfold occurrences; simpl; lia.
  - rewrite bump_all_cons, IH, bump_lookup. unfold occurrences. simpl.
    destruct (decide (p = q)) as [-> | Hne].
    + destruct (decide (k = kind)) as [-> | Hk].
      * rewrite decide_True by reflexivity.
        rewrite bool_decide_eq_true_2 by reflexivity. simpl. lia.
      * rewrite decide_False by congruence.
        rewrite bool_decide_eq_false_2 by assumption. lia.
    + rewrite decide_False by congruence. lia.
Qed.

Lemma count_update def p q kind f E :
  ErrorRecorder.count def kind q (update def p f E)
  = ErrorRecorder.count def kind q E
    + (if decide (p = q)
       then occurrences kind (snd (f (MetricStore.getValue def p E)))
       else 0).
Proof.
  unfold ErrorRecorder.count. rewrite update_errors. apply bump_all_lookup.
Qed.

(** Writes to two different pings can be done in either order. *)
Lemma update_comm def p q f g E :
  p <> q ->
  update def p f (update def q g E) = update def q g (update def p f E).
Proof.
  intros Hne. apply Engine_eq.
  - by rewrite !update_registry.
  - by rewrite !update_next_handle.
  - rewrite !update_store, !getValue_update.
    rewrite !decide_False by congruence.
    apply insert_insert_ne. congruence.
  - rewrite !update_errors, !getValue_update.
    rewrite !decide_False by congruence.
    by apply bump_all_comm.
Qed.

(** Two writes to the same ping are one write. *)
Lemma update_update def p f g E :
  update def p g (update def p f E) = update def p (then_step f g) E.
Proof.
  apply Engine_eq.
  - by rewrite !update_registry.
  - by rewrite !update_next_handle.
  - rewrite !update_store, getValue_update, decide_True by reflexivity.
    rewrite insert_insert_eq. unfold then_step.
    destruct (f (MetricStore.getValue def p E)) as [a1 e1]. simpl.
    by destruct (g (Some a1)).
  - rewrite !update_errors, getValue_update, decide_True by reflexivity.
    unfold then_step.
    destruct (f (MetricStore.getValue def p E)) as [a1 e1]. simpl.
    destruct (g (Some a1)) as [a2 e2]. simpl. by rewrite bump_all_app.
Qed.

(** A write only looks at the list stored for its ping. *)
Lemma update_ext def p f g E :
  f (MetricStore.getValue def p E) = g (MetricStore.getValue def p E) ->
  update def p f E = update def p g E.
Proof. intros Heq. unfold update. by rewrite Heq. Qed.

(** ** A write to every destination ping *)

Lemma update_all_cons def f p ps E :
  update_all def f (p :: ps) E = update_all def f ps (update def p f E).
Proof. reflexivity. Qed.

Lemma update_all_registry def f ps E :
  registry (update_all def f ps E) = registry E.
Proof.
  revert E; induction ps as [|p ps IH]; intros E; [reflexivity |].
  by rewrite update_all_cons, IH, update_registry.
Qed.

Lemma getValue_update_all_notin def f ps q E :
  q ∉ ps ->
  MetricStore.getValue def q (update_all def f ps E)
  = MetricStore.getValue def q E.
Proof.
  revert E; induction ps as [|p ps IH]; intros E Hq; [reflexivity |].
  apply not_elem_of_cons in Hq as [Hne Hq].
  rewrite update_all_cons, IH by assumption.
  rewrite getValue_update, decide_False by congruence. reflexivity.
Qed.

Lemma count_update_all_notin def f ps q kind E :
  q ∉ ps ->
  ErrorRecorder.count def kind q (update_all def f ps E)
  = ErrorRecorder.count def kind q E.
Proof.
  revert E; induction ps as [|p ps IH]; intros E Hq; [reflexivity |].
  apply not_elem_of_cons in Hq as [Hne Hq].
  rewrite update_all_cons, IH by assumption.
  rewrite count_update, decide_False by congruence. lia.
Qed.

(** Every destination ping ends up with a list the write accepted. *)
Lemma getValue_update_all_in def f ps q E :
  q ∈ ps ->
  exists cur,
    MetricStore.getValue def q (update_all def f ps E) = Some (fst (f cur)).
Proof.
  revert E; induction ps as [|p ps IH]; intros E Hq.
  - by apply elem_of_nil in Hq.
  - rewrite update_all_cons. destruct (decide (q ∈ ps)) as [Hin | Hnotin].
    + by apply IH.
    + apply elem_of_cons in Hq as [-> | Hq]; [| contradiction].
      exists (MetricStore.getValue def p E).
      rewrite getValue_update_all_notin by assumption.
      by rewrite getValue_update, decide_True.
Qed.

(** With distinct destination pings each ping is written once, from the
    list it held before. *)
Lemma getValue_update_all_NoDup def f ps q E :
  NoDup ps -> q ∈ ps ->
  MetricStore.getValue def q (update_all def f ps E)
  = Some (fst (f (MetricStore.getValue def q E))).
Proof.
  intros Hnd. revert E; induction Hnd as [|p ps Hp Hnd IH]; intros E Hq.
  - by apply elem_of_nil in Hq.
  - rewrite update_all_cons. apply elem_of_cons in Hq as [-> | Hq].
    + rewrite getValue_update_all_notin by assumption.
      by rewrite getValue_update, decide_True.
    + rewrite IH by assumption.
      rewrite getValue_update, decide_False; [reflexivity |].
      intros ->. contradiction.
Qed.

Lemma count_update_all_NoDup def f ps q kind E :
  NoDup ps -> q ∈ ps ->
  ErrorRecorder.count def kind q (update_all def f ps E)
  = ErrorRecorder.count def kind q E
    + occurrences kind (snd (f (MetricStore.getValue def q E))).
Proof.
  intros Hnd. revert E; induction Hnd as [|p ps Hp Hnd IH]; intros E Hq.
  - by apply elem_of_nil in Hq.
  - rewrite update_all_cons. apply elem_of_cons in Hq as [-> | Hq].
    + rewrite count_update_all_notin by assumption.
      by rewrite count_update, decide_True.
    + assert (p <> q) as Hne by (intros ->; contradiction).
      rewrite IH by assumption.
      rewrite count_update, getValue_update, !decide_False by assumption. lia.
Qed.

(** A write that reports no error leaves every counter as it was. *)
Lemma errors_update_all_quiet def f ps E :
  (forall cur, snd (f cur) = []) ->
  errors (update_all def f ps E) = errors E.
Proof.
  intros Hf. revert E; induction ps as [|p ps IH]; intros E; [reflexivity |].
  by rewrite update_all_cons, IH, update_errors, Hf.
Qed.

Lemma update_update_all_comm def f g ps q E :
  q ∉ ps ->
  update def q g (update_all def f ps E)
  = update_all def f ps (update def q g E).
Proof.
  revert E; induction ps as [|p ps IH]; intros E Hq; [reflexivity |].
  apply not_elem_of_cons in Hq as [Hne Hq].
  rewrite !update_all_cons, IH by assumption.
  by rewrite (update_comm def q p) by assumption.
Qed.

Lemma update_all_fuse def f g ps E :
  NoDup ps ->
  update_all def g ps (update_all def f ps E)
  = update_all def (then_step f g) ps E.
Proof.
  intros Hnd. revert E; induction Hnd as [|p ps Hp Hnd IH]; intros E;
    [reflexivity |].
  rewrite !update_all_cons.
  rewrite update_update_all_comm by assumption.
  by rewrite IH, update_update.
Qed.

Lemma update_all_ext def f g ps E :
  NoDup ps ->
  (forall p, p ∈ ps ->
     f (MetricStore.getValue def p E) = g (MetricStore.getValue def p E)) ->
  update_all def f ps E = update_all def g ps E.
Proof.
  intros Hnd. revert E; induction Hnd as [|p ps Hp Hnd IH]; intros E Hfg;
    [reflexivity |].
  rewrite !update_all_cons.
  rewrite (update_ext def p f g) by (apply Hfg; by left).
  apply IH. intros q Hq.
  rewrite getValue_update, decide_False by (intros ->; contradiction).
  apply Hfg. by right.
Qed.

(** ** The Validator on lists within the limits *)

Section validator_facts.
Context `{Limits}.

Lemma substring_all (n : nat) (s : string) :
  String.length s <= n -> substring 0 n s = s.
Proof.
  revert n; induction s as [|c s IH]; intros n Hlen.
  - by destruct n.
  - destruct n as [|n]; simpl in Hlen; [lia |].
    simpl. f_equal. apply IH. lia.
Qed.

Lemma truncate_short (s : string) : short s -> Validator.truncate s = s.
Proof. apply substring_all. Qed.

Lemma too_long_short (s : string) : short s -> Validator.too_long s = false.
Proof. unfold short, Validator.too_long. intros Hs. apply Nat.ltb_ge. lia. Qed.

Lemma truncate_all_short (l : list string) :
  Forall short l -> Validator.truncate <$> l = l.
Proof.
  induction 1 as [|s l Hs Hl IH]; [reflexivity |].
  rewrite fmap_cons, IH. by rewrite truncate_short.
Qed.

Lemma filter_too_long_short (l : list string) :
  Forall short l -> List.filter Validator.too_long l = [].
Proof.
  induction 1 as [|s l Hs Hl IH]; [reflexivity |].
  simpl. by rewrite too_long_short.
Qed.

Lemma Forall_short_take (n : nat) (l : list string) :
  Forall short l -> Forall short (take n l).
Proof. apply Forall_take. Qed.

(** A list within both limits is accepted as it is, without error. *)
Lemma validate_within (l : list string) :
  length l <= MAX_LIST_LENGTH -> Forall short l ->
  Validator.validate l = (l, []).
Proof.
  intros Hlen Hshort. unfold Validator.validate.
  rewrite take_ge by assumption.
  rewrite truncate_all_short, filter_too_long_short by assumption.
  replace (MAX_LIST_LENGTH <? length l) with false
    by (symmetry; apply Nat.ltb_ge; lia).
  reflexivity.
Qed.

(** A list that is only too long loses its tail and counts one overflow. *)
Lemma validate_overflow (l : list string) :
  MAX_LIST_LENGTH < length l -> Forall short l ->
  Validator.validate l = (take MAX_LIST_LENGTH l, [InvalidOverflow]).
Proof.
  intros Hlen Hshort. unfold Validator.validate.
  rewrite truncate_all_short, filter_too_long_short
    by (by apply Forall_short_take).
  replace (MAX_LIST_LENGTH <? length l) with true
    by (symmetry; by apply Nat.ltb_lt).
  reflexivity.
Qed.

(** The Validator only ever reports overflows. *)
Lemma validate_kinds (l : list string) (kind : ErrorType) :
  kind <> InvalidOverflow -> occurrences kind (snd (Validator.validate l)) = 0.
Proof.
  intros Hk. unfold Validator.validate, occurrences. simpl.
  rewrite List.filter_app, length_app.
  assert (forall n : nat,
             List.filter (fun k => bool_decide (k = kind))
                         (replicate n InvalidOverflow) = []) as Hrep.
  { induction n as [|n IH]; [reflexivity |]. simpl.
    rewrite bool_decide_eq_false_2 by congruence. exact IH. }
  assert (forall (A : Type) (l' : list A),
             (fun _ : A => InvalidOverflow) <$> l'
             = replicate (length l') InvalidOverflow) as Hconst.
  { intros A l'. induction l' as [|x l' IH]; [reflexivity |].
    simpl. by f_equal. }
  rewrite Hconst, Hrep.
  destruct (MAX_LIST_LENGTH <? length l); simpl;
    [rewrite bool_decide_eq_false_2 by congruence |]; reflexivity.
Qed.

(** The two writes of the Metric Store are [update]s. *)
Lemma replace_update def p values E :
  MetricStore.replace def p values E = update def p (replace_step values) E.
Proof. reflexivity. Qed.

Lemma append_update def p values E :
  MetricStore.append def p values E = update def p (append_step values) E.
Proof.
  unfold MetricStore.append, update, append_step.
  destruct (Validator.validate values) as [new errs1].
  by destruct (Validator.validate _) as [accepted errs2].
Qed.

Lemma foldl_ext_all {A B} (f g : A -> B -> A) (l : list B) (a : A) :
  (forall x y, f x y = g x y) -> foldl f a l = foldl g a l.
Proof.
  intros Hfg. revert a; induction l as [|y l IH]; intros a; [reflexivity |].
  simpl. by rewrite Hfg, IH.
Qed.

Lemma Engine_set_update_all h def values E :
  registry E !! h = Some def ->
  Engine.set h values E
  = update_all def (replace_step values) (sendInPings def) E.
Proof. intros Hreg. unfold Engine.set. by rewrite Hreg. Qed.

Lemma Engine_add_update_all h def value E :
  registry E !! h = Some def ->
  Engine.add h value E
  = update_all def (append_step [value]) (sendInPings def) E.
Proof.
  intros Hreg. unfold Engine.add. rewrite Hreg. unfold update_all.
  apply foldl_ext_all. intros E' p. apply append_update.
Qed.

Lemma Engine_set_registry h values E :
  registry (Engine.set h values E) = registry E.
Proof.
  destruct (registry E !! h) as [def|] eqn:Hreg.
  - by rewrite (Engine_set_update_all h def), update_all_registry.
  - unfold Engine.set. by rewrite Hreg.
Qed.

Lemma Engine_add_registry h value E :
  registry (Engine.add h value E) = registry E.
Proof.
  destruct (registry E !! h) as [def|] eqn:Hreg.
  - by rewrite (Engine_add_update_all h def), update_all_registry.
  - unfold Engine.add. by rewrite Hreg.
Qed.

End validator_facts.

(** ** The closures and the worker *)

Section dispatcher_facts.
Context `{Limits}.

Lemma call_queue (func : Task) (W : World) :
  queue (snd (Closure.call func W)) = queue W.
Proof. destruct func as [self v | self v]; simpl; unfold bind, self_handle;
         by destruct (_handle self). Qed.

Lemma call_engine (func : Task) (W : World) :
  engine (snd (Closure.call func W)) = Task_effect func (engine W).
Proof. destruct func as [self v | self v]; unfold Task_effect; simpl;
         unfold bind, self_handle; by destruct (_handle self). Qed.

(** A closure whose object has its handle returns normally. *)
Lemma call_returns (func : Task) (W : World) :
  match func with add_set self _ | set_set self _ => is_Some (_handle self) end ->
  fst (Closure.call func W) = Return tt.
Proof.
  destruct func as [self v | self v]; intros [h Hh]; simpl;
    unfold bind, self_handle; by rewrite Hh.
Qed.

Lemma Task_effect_add self h value E :
  _handle self = Some h ->
  Task_effect (add_set self value) E = Engine.add h value E.
Proof. intros Hh. unfold Task_effect. simpl. unfold bind, self_handle.
       by rewrite Hh. Qed.

Lemma Task_effect_set self h values E :
  _handle self = Some h ->
  Task_effect (set_set self values) E = Engine.set h values E.
Proof.
  intros Hh. unfold Task_effect. simpl. unfold bind, self_handle.
  rewrite Hh. simpl. unfold _ffi.ffi_encode_vec_string.
  by rewrite take_ge by reflexivity.
Qed.

Lemma Task_effect_registry func E :
  registry (Task_effect func E) = registry E.
Proof.
  destruct func as [self v | self v]; destruct (_handle self) as [h|] eqn:Hh.
  - by rewrite (Task_effect_add self h), Engine_add_registry.
  - unfold Task_effect. simpl. unfold bind, self_handle. by rewrite Hh.
  - by rewrite (Task_effect_set self h), Engine_set_registry.
  - unfold Task_effect. simpl. unfold bind, self_handle. by rewrite Hh.
Qed.

Lemma step_cons func rest W :
  queue W = func :: rest ->
  queue (Dispatcher.step W) = rest
  /\ engine (Dispatcher.step W) = Task_effect func (engine W).
Proof.
  intros Hq. unfold Dispatcher.step. rewrite Hq.
  by rewrite call_queue, call_engine.
Qed.

Lemma iter_step (ts : list Task) :
  forall W, queue W = ts ->
    queue (Nat.iter (length ts) Dispatcher.step W) = []
    /\ engine (Nat.iter (length ts) Dispatcher.step W)
       = foldl (fun E func => Task_effect func E) (engine W) ts.
Proof.
  induction ts as [|func ts IH]; intros W Hq; [by split |].
  change (length (func :: ts)) with (S (length ts)).
  rewrite Nat.iter_succ_r.
  destruct (step_cons func ts W Hq) as [Hq' HE'].
  destruct (IH (Dispatcher.step W) Hq') as [IHq IHE].
  split; [exact IHq |]. rewrite IHE, HE'. reflexivity.
Qed.

(** After the barrier nothing is pending, and the engine has seen every
    task that was, oldest first. *)
Lemma drain_queue (W : World) : queue (Dispatcher.drain W) = [].
Proof. apply (iter_step (queue W)). reflexivity. Qed.

Lemma drain_engine (W : World) :
  engine (Dispatcher.drain W)
  = foldl (fun E func => Task_effect func E) (engine W) (queue W).
Proof. apply (iter_step (queue W)). reflexivity. Qed.

Lemma drain_idle (W : World) : queue W = [] -> Dispatcher.drain W = W.
Proof. intros Hq. unfold Dispatcher.drain. by rewrite Hq. Qed.

(** A task launched is the last to run. *)
Lemma drain_launch (func : Task) (W : World) :
  engine (Dispatcher.drain (snd (Dispatcher.launch func W)))
  = Task_effect func (engine (Dispatcher.drain W)).
Proof. rewrite !drain_engine. simpl. by rewrite foldl_snoc. Qed.

Lemma drain_registry (W : World) :
  registry (engine (Dispatcher.drain W)) = registry (engine W).
Proof.
  rewrite drain_engine. generalize (engine W) as E.
  induction (queue W) as [|func ts IH]; intros E; [reflexivity |].
  simpl. by rewrite IH, Task_effect_registry.
Qed.

End dispatcher_facts.

(** ** The methods, unfolded *)

Section method_facts.
Import StringListMetricType.

Lemma add_disabled self value W :
  _disabled self = true -> add self value W = (Return tt, W).
Proof. intros Hd. unfold add. by rewrite Hd. Qed.

Lemma set_disabled self value W :
  _disabled self = true -> set self value W = (Return tt, W).
Proof. intros Hd. unfold set. by rewrite Hd. Qed.

Lemma add_enabled self value W :
  _disabled self = false ->
  add self value W = Dispatcher.launch (add_set self value) W.
Proof. intros Hd. unfold add. by rewrite Hd. Qed.

Lemma set_enabled self value W :
  _disabled self = false ->
  set self value W = Dispatcher.launch (set_set self value) W.
Proof. intros Hd. unfold set. by rewrite Hd. Qed.

Lemma add_returns self value W : fst (add self value W) = Return tt.
Proof. unfold add. by destruct (_disabled self). Qed.

Lemma set_returns self value W : fst (set self value W) = Return tt.
Proof. unfold set. by destruct (_disabled self). Qed.

Lemma resolve_ping self ping W :
  match ping with
  | None => subscript0 (_send_in_pings self)
  | Some p => ret p
  end W
  = match default_ping self ping with
    | Some p => (Return p, W)
    | None => (Raise IndexError, W)
    end.
Proof. destruct ping as [p|]; [reflexivity |]. simpl.
       by destruct (_send_in_pings self). Qed.

Lemma test_has_value_unfold self ping W :
  test_has_value self ping W
  = match default_ping self ping with
    | None => (Raise IndexError, W)
    | Some p =>
        match _handle self with
        | None => (Raise AttributeError, W)
        | Some h =>
            (Return (Engine.testHasValue h p (engine W)),
             traced W [native.glean_string_list_test_has_value h p])
        end
    end.
Proof.
  unfold test_has_value, bind at 1. rewrite resolve_ping.
  destruct (default_ping self ping) as [p|]; [| reflexivity].
  unfold bind, self_handle. destruct (_handle self) as [h|]; [| reflexivity].
  simpl. unfold traced, _ffi.ffi_encode_string.
  by destruct (Engine.testHasValue h p (engine W)).
Qed.

Lemma test_get_num_recorded_errors_unfold self kind ping W :
  test_get_num_recorded_errors self kind ping W
  = match default_ping self ping with
    | None => (Raise IndexError, W)
    | Some p =>
        match _handle self with
        | None => (Raise AttributeError, W)
        | Some h =>
            (Return (Z.of_nat (Engine.testGetNumRecordedErrors h kind p (engine W))),
             traced W [native.glean_string_list_test_get_num_recorded_errors
                         h (ErrorType_value kind) p])
        end
    end.
Proof.
  unfold test_get_num_recorded_errors, bind at 1. rewrite resolve_ping.
  destruct (default_ping self ping) as [p|]; [| reflexivity].
  unfold bind, self_handle. destruct (_handle self) as [h|]; [| reflexivity].
  simpl. unfold traced, _ffi.lib.glean_string_list_test_get_num_recorded_errors,
    _ffi.invoke, _ffi.ffi_encode_string. simpl. by destruct kind.
Qed.

Lemma test_get_value_unfold self ping W :
  test_get_value self ping W
  = match default_ping self ping with
    | None => (Raise IndexError, W)
    | Some p =>
        match _handle self with
        | None => (Raise AttributeError, W)
        | Some h =>
            match Engine.testGetValue h p (engine W) with
            | None =>
                (Raise (ValueError "metric has no value"),
                 traced W [native.glean_string_list_test_has_value h p])
            | Some l =>
                (Return l,
                 traced W
                   [native.glean_string_list_test_has_value h p;
                    native.glean_string_list_test_get_value_as_json_string h p])
            end
        end
    end.
Proof.
  unfold test_get_value, bind at 1. rewrite resolve_ping.
  destruct (default_ping self ping) as [p|]; [| reflexivity].
  unfold bind at 1. rewrite test_has_value_unfold. simpl.
  destruct (_handle self) as [h|] eqn:Hh; [| reflexivity].
  unfold Engine.testHasValue.
  destruct (Engine.testGetValue h p (engine W)) as [l|] eqn:Hv.
  - rewrite bool_decide_eq_true_2 by eauto. simpl.
    unfold bind, self_handle. rewrite Hh. simpl.
    unfold _ffi.lib.glean_string_list_test_get_value_as_json_string,
      _ffi.invoke, traced, _ffi.ffi_encode_string. simpl. rewrite Hv. simpl.
    unfold json_loads, _ffi.ffi_decode_string.
    rewrite json_facts.loads_dumps. simpl. by rewrite <- app_assoc.
  - rewrite bool_decide_eq_false_2 by (by intros [? ?]). reflexivity.
Qed.

Lemma del_unfold self W :
  __del__ self W
  = match _handle self with
    | None => (Return tt, W)
    | Some h =>
        if (h =? 0)%Z then (Return tt, W)
        else (Return tt,
              {| engine := Engine.dispose h (engine W);
                 queue := queue W;
                 calls := calls W ++ [native.glean_destroy_string_list_metric h] |})
    end.
Proof.
  unfold __del__, getattr_handle, self_handle.
  destruct (_handle self) as [h|]; [| reflexivity].
  by destruct (h =? 0)%Z.
Qed.

Lemma init_unfold disabled category lifetime name send_in_pings W :
  __init__ disabled category lifetime name send_in_pings W
  = (Return {| _disabled := disabled; _send_in_pings := send_in_pings;
               _handle := Some (Z.pos (next_handle (engine W))) |},
     {| engine :=
          snd (Engine.register category name send_in_pings lifetime disabled
                 (engine W));
        queue := queue W;
        calls := calls W ++
                 [native.glean_new_string_list_metric
                    category name send_in_pings (length send_in_pings)
                    (Lifetime_value lifetime) disabled] |}).
Proof.
  unfold __init__, bind, _ffi.lib.glean_new_string_list_metric, _ffi.invoke.
  unfold _ffi.ffi_encode_string, _ffi.ffi_encode_vec_string.
  rewrite take_ge by reflexivity.
  by destruct lifetime.
Qed.

End method_facts.

(** ** The default ping *)

(** C9.  When a test read ([test_has_value], [test_get_value],
    [test_get_num_recorded_errors]) is called without a ping name, the ping
    consulted is the first element of [_send_in_pings]: the call is the call
    with that ping given, and the native call on the trace names it.  With
    an empty [_send_in_pings] the lookup of the default fails with
    IndexError before anything is asked of the engine. *)
Theorem default_ping_is_first (self : StringListMetricType) (kind : ErrorType)
        (W : World) :
  (forall p rest h,
      _send_in_pings self = p :: rest -> _handle self = Some h ->
      StringListMetricType.test_has_value self None W
      = StringListMetricType.test_has_value self (Some p) W
      /\ StringListMetricType.test_get_value self None W
         = StringListMetricType.test_get_value self (Some p) W
      /\ StringListMetricType.test_get_num_recorded_errors self kind None W
         = StringListMetricType.test_get_num_recorded_errors self kind (Some p) W
      /\ calls (snd (StringListMetricType.test_has_value self None W))
         = calls W ++ [native.glean_string_list_test_has_value h p]
      /\ calls (snd (StringListMetricType.test_get_value self None W))
         = calls W ++
           native.glean_string_list_test_has_value h p ::
           (if Engine.testHasValue h p (engine W)
            then [native.glean_string_list_test_get_value_as_json_string h p]
            else [])
      /\ calls (snd (StringListMetricType.test_get_num_recorded_errors
                       self kind None W))
         = calls W ++
           [native.glean_string_list_test_get_num_recorded_errors
              h (ErrorType_value kind) p])
  /\ (_send_in_pings self = [] ->
      StringListMetricType.test_has_value self None W = (Raise IndexError, W)
      /\ StringListMetricType.test_get_value self None W = (Raise IndexError, W)
      /\ StringListMetricType.test_get_num_recorded_errors self kind None W
         = (Raise IndexError, W)).
Proof.
  split.
  - intros p rest h Hpings Hh.
    rewrite !test_has_value_unfold, !test_get_value_unfold,
      !test_get_num_recorded_errors_unfold.
    unfold default_ping. rewrite Hpings, Hh. simpl.
    repeat split; try reflexivity.
    unfold Engine.testHasValue.
    destruct (Engine.testGetValue h p (engine W)) as [l|].
    + by rewrite bool_decide_eq_true_2 by eauto.
    + by rewrite bool_decide_eq_false_2 by (by intros [? ?]).
  - intros Hpings.
    rewrite test_has_value_unfold, test_get_value_unfold,
      test_get_num_recorded_errors_unfold.
    unfold default_ping. by rewrite Hpings.
Qed.

Lemma default_ping_is_first_witness :
  (StringListMetricType.test_has_value list1 None list1_world
   = StringListMetricType.test_has_value list1 (Some "metrics") list1_world
   /\ calls (snd (StringListMetricType.test_has_value list1 None list1_world))
      = calls list1_world ++ [native.glean_string_list_test_has_value 1 "metrics"])
  /\ StringListMetricType.test_has_value no_pings None list1_world
     = (Raise IndexError, list1_world).
Proof.
  pose proof (default_ping_is_first list1 InvalidOverflow list1_world) as [Hfirst _].
  pose proof (default_ping_is_first no_pings InvalidOverflow list1_world) as [_ Hnone].
  specialize (Hfirst "metrics" [] 1%Z eq_refl eq_refl).
  specialize (Hnone eq_refl).
  split; [split |]; [apply Hfirst | apply Hfirst | apply Hnone].
Defined.

(** ** Construction *)

(** C10.  [__init__] always makes the native registration call, whatever
    its arguments and also when [disabled] is true: the trace gains exactly
    that call, the object receives a non-zero handle that is live in the
    engine under the definition given, and the engine holds that handle
    until [__del__] releases it. *)
Theorem init_always_registers (disabled : bool) (category : string)
        (lifetime : Lifetime) (name : string) (send_in_pings : list string)
        (W : World) :
  let h := Z.pos (next_handle (engine W)) in
  let self := {| _disabled := disabled; _send_in_pings := send_in_pings;
                 _handle := Some h |} in
  let W' := snd (StringListMetricType.__init__
                   disabled category lifetime name send_in_pings W) in
  fst (StringListMetricType.__init__
         disabled category lifetime name send_in_pings W) = Return self
  /\ h <> 0%Z
  /\ calls W'
     = calls W ++
       [native.glean_new_string_list_metric
          category name send_in_pings (length send_in_pings)
          (Lifetime_value lifetime) disabled]
  /\ registry (engine W') !! h
     = Some {| disabled := disabled; category := category; name := name;
               lifetime := lifetime; sendInPings := send_in_pings |}
  /\ queue W' = queue W
  /\ StringListMetricType.__del__ self W'
     = (Return tt,
        {| engine := Engine.dispose h (engine W');
           queue := queue W';
           calls := calls W' ++ [native.glean_destroy_string_list_metric h] |})
  /\ registry (engine (snd (StringListMetricType.__del__ self W'))) !! h = None.
Proof.
  intros h self W'. subst W'. rewrite init_unfold. simpl.
  split; [reflexivity |]. split; [discriminate |]. split; [reflexivity |].
  split; [by rewrite lookup_insert_eq |]. split; [reflexivity |].
  split; [reflexivity |]. by rewrite lookup_delete_eq.
Qed.

(** ** Recording through the dispatcher *)

Section recording_facts.
Context `{Limits}.

(** Once the worker has caught up, a [set] on an enabled metric has done
    to the engine what the native [set] does, after everything queued
    before it; likewise for [add]. *)
Lemma set_then_drain self h values W :
  _handle self = Some h -> _disabled self = false ->
  engine (Dispatcher.drain (snd (StringListMetricType.set self values W)))
  = Engine.set h values (engine (Dispatcher.drain W)).
Proof.
  intros Hh Hd. rewrite set_enabled by assumption.
  rewrite drain_launch. by apply Task_effect_set.
Qed.

Lemma add_then_drain self h value W :
  _handle self = Some h -> _disabled self = false ->
  engine (Dispatcher.drain (snd (StringListMetricType.add self value W)))
  = Engine.add h value (engine (Dispatcher.drain W)).
Proof.
  intros Hh Hd. rewrite add_enabled by assumption.
  rewrite drain_launch. by apply Task_effect_add.
Qed.

Lemma testGetValue_live h def p E :
  registry E !! h = Some def ->
  Engine.testGetValue h p E = MetricStore.getValue def p E.
Proof. intros Hreg. unfold Engine.testGetValue. by rewrite Hreg. Qed.

Lemma testGetNumRecordedErrors_live h def kind p E :
  registry E !! h = Some def ->
  Engine.testGetNumRecordedErrors h kind p E = ErrorRecorder.count def kind p E.
Proof. intros Hreg. unfold Engine.testGetNumRecordedErrors. by rewrite Hreg. Qed.

Lemma testHasValue_Some h p E l :
  Engine.testGetValue h p E = Some l -> Engine.testHasValue h p E = true.
Proof.
  intros Hv. unfold Engine.testHasValue. rewrite Hv.
  apply bool_decide_eq_true_2. eauto.
Qed.

Lemma live_drain W self h def :
  live W self h def -> live (Dispatcher.drain W) self h def.
Proof. intros [Hh Hreg]. split; [exact Hh |]. by rewrite drain_registry. Qed.

End recording_facts.

(** ** A disabled metric *)

(** C3.  On a metric constructed with [disabled] true, [add] and [set]
    return at once and leave the world as it was: nothing is put on the
    dispatcher queue, no native call is made, and so no read of the metric
    ([test_has_value], error counts, for any ping, before or after the
    worker has caught up) differs from what it was before the call. *)
Theorem disabled_metric_records_nothing `{Limits}
        (self : StringListMetricType) (value : string) (values : list string)
        (W : World) :
  _disabled self = true ->
  StringListMetricType.add self value W = (Return tt, W)
  /\ StringListMetricType.set self values W = (Return tt, W)
  /\ queue (snd (StringListMetricType.add self value W)) = queue W
  /\ queue (snd (StringListMetricType.set self values W)) = queue W
  /\ (forall ping,
         fst (StringListMetricType.test_has_value self ping
                (Dispatcher.drain (snd (StringListMetricType.add self value W))))
         = fst (StringListMetricType.test_has_value self ping (Dispatcher.drain W))
         /\ fst (StringListMetricType.test_has_value self ping
                   (Dispatcher.drain (snd (StringListMetricType.set self values W))))
            = fst (StringListMetricType.test_has_value self ping (Dispatcher.drain W)))
  /\ (forall kind ping,
         fst (StringListMetricType.test_get_num_recorded_errors self kind ping
                (Dispatcher.drain (snd (StringListMetricType.add self value W))))
         = fst (StringListMetricType.test_get_num_recorded_errors self kind ping
                  (Dispatcher.drain W))
         /\ fst (StringListMetricType.test_get_num_recorded_errors self kind ping
                   (Dispatcher.drain (snd (StringListMetricType.set self values W))))
            = fst (StringListMetricType.test_get_num_recorded_errors self kind ping
                     (Dispatcher.drain W))).
Proof.
  intros Hd. rewrite (add_disabled self value W Hd), (set_disabled self values W Hd).
  simpl. repeat split; reflexivity.
Qed.

Lemma disabled_metric_records_nothing_witness :
  StringListMetricType.add list1_off "x" list1_off_world = (Return tt, list1_off_world)
  /\ StringListMetricType.set list1_off ["x"; "y"] list1_off_world
     = (Return tt, list1_off_world).
Proof.
  pose proof (@disabled_metric_records_nothing scenario_limits
                list1_off "x" ["x"; "y"] list1_off_world eq_refl) as Hw.
  split; apply Hw.
Defined.

(** ** Reading the value *)

(** C2.  [test_get_value] raises ValueError("metric has no value") exactly
    when the engine holds no value for the metric and the ping consulted,
    and returns the stored list otherwise.  No other method of the class
    ends with a ValueError, and a metric registered over an empty Metric
    Store (so with no add or set before) has no value for any ping. *)
Theorem test_get_value_value_or_error (self : StringListMetricType)
        (ping : option string) (p : string) (h : Z) (W : World) :
  _handle self = Some h -> default_ping self ping = Some p ->
  fst (StringListMetricType.test_get_value self ping W)
  = match Engine.testGetValue h p (engine W) with
    | Some l => Return l
    | None => Raise (ValueError "metric has no value")
    end
  /\ (forall msg value values kind ping' W',
        fst (StringListMetricType.add self value W') <> Raise (ValueError msg)
        /\ fst (StringListMetricType.set self values W') <> Raise (ValueError msg)
        /\ fst (StringListMetricType.test_has_value self ping' W')
           <> Raise (ValueError msg)
        /\ fst (StringListMetricType.test_get_num_recorded_errors self kind ping' W')
           <> Raise (ValueError msg)
        /\ fst (StringListMetricType.__del__ self W') <> Raise (ValueError msg))
  /\ (forall disabled category lifetime name send_in_pings q W0,
        store (engine W0) = ∅ ->
        match StringListMetricType.__init__
                disabled category lifetime name send_in_pings W0 with
        | (Return fresh, W1) =>
            fst (StringListMetricType.test_get_value fresh (Some q) W1)
            = Raise (ValueError "metric has no value")
        | (Raise _, _) => False
        end).
Proof.
  intros Hh Hp. split; [| split].
  - rewrite test_get_value_unfold, Hp, Hh.
    by destruct (Engine.testGetValue h p (engine W)).
  - intros msg value values kind ping' W'.
    rewrite add_returns, set_returns, test_has_value_unfold,
      test_get_num_recorded_errors_unfold, del_unfold, Hh.
    repeat split; try discriminate.
    + by destruct (default_ping self ping').
    + by destruct (default_ping self ping').
    + by destruct (h =? 0)%Z.
  - intros disabled category lifetime name send_in_pings q W0 Hempty.
    rewrite init_unfold, test_get_value_unfold. simpl.
    unfold Engine.testGetValue. simpl. rewrite lookup_insert_eq.
    unfold MetricStore.getValue. simpl. rewrite Hempty, lookup_empty.
    reflexivity.
Qed.

Lemma test_get_value_value_or_error_witness :
  fst (StringListMetricType.test_get_value list1 None list1_world)
  = Raise (ValueError "metric has no value")
  /\ fst (StringListMetricType.test_get_value list1 (Some "events") list1_world)
     = Raise (ValueError "metric has no value").
Proof.
  pose proof (test_get_value_value_or_error list1 None "metrics" 1%Z list1_world
                eq_refl eq_refl) as (Hw & _ & Hfresh).
  split; [exact Hw |].
  exact (Hfresh false "tags" Ping "list1" ["metrics"] "events" World_empty eq_refl).
Defined.

(** ** Disposal *)

(** C7, as the code has it.  [__del__] never raises.  It does nothing when
    the [_handle] attribute is missing or zero; otherwise it calls the
    engine's destroy with the handle, every time it runs, since it leaves
    [_handle] as it is.  Disposal is idempotent in its effect: the engine
    ignores a destroy of a handle that is no longer live, so running
    [__del__] a second time leaves the engine exactly as the first run left
    it. *)
Theorem del_idempotent_effect (self : StringListMetricType) (W : World) :
  fst (StringListMetricType.__del__ self W) = Return tt
  /\ (getattr_handle self 0 = 0%Z ->
      StringListMetricType.__del__ self W = (Return tt, W))
  /\ (forall h, _handle self = Some h -> h <> 0%Z ->
      StringListMetricType.__del__ self W
      = (Return tt,
         {| engine := Engine.dispose h (engine W);
            queue := queue W;
            calls := calls W ++ [native.glean_destroy_string_list_metric h] |}))
  /\ engine (snd (StringListMetricType.__del__ self
                    (snd (StringListMetricType.__del__ self W))))
     = engine (snd (StringListMetricType.__del__ self W)).
Proof.
  rewrite !del_unfold. unfold getattr_handle.
  destruct (_handle self) as [h|]; [| by repeat split].
  destruct (h =? 0)%Z eqn:Hz.
  - repeat split; try reflexivity.
    intros h' [= <-] Hne. apply Z.eqb_eq in Hz. contradiction.
  - split; [reflexivity |]. split.
    { intros ->. by rewrite Z.eqb_refl in Hz. }
    split; [by intros h' [= <-] _ |].
    simpl. unfold Engine.dispose. simpl. by rewrite delete_delete_eq.
Qed.

Lemma del_idempotent_effect_witness :
  StringListMetricType.__del__ unfinished list1_world = (Return tt, list1_world)
  /\ StringListMetricType.__del__ list1 list1_world
     = (Return tt,
        {| engine := Engine.dispose 1 (engine list1_world);
           queue := queue list1_world;
           calls := calls list1_world ++ [native.glean_destroy_string_list_metric 1] |}).
Proof.
  split.
  - pose proof (del_idempotent_effect unfinished list1_world) as (_ & Hw & _).
    apply Hw. reflexivity.
  - pose proof (del_idempotent_effect list1 list1_world) as (_ & _ & Hw & _).
    apply (Hw 1%Z eq_refl). discriminate.
Defined.

(** C7 as stated fails: the destroy of the engine is called
    once per run of [__del__], so twice for the handle of an object that is
    disposed of twice. *)
Lemma del_twice_destroys_twice :
  fst (StringListMetricType.__init__ false "tags" Ping "list1" ["metrics"]
         World_empty) = Return list1
  /\ destroys 1 (calls list1_world) = 0
  /\ destroys 1
       (calls (snd (StringListMetricType.__del__ list1
                      (snd (StringListMetricType.__del__ list1 list1_world)))))
     = 2
  /\ ~ (destroys 1
          (calls (snd (StringListMetricType.__del__ list1
                         (snd (StringListMetricType.__del__ list1 list1_world)))))
        <= 1).
Proof. repeat split; try reflexivity. vm_compute. lia. Qed.

(** ** The test reads and the queue *)

(** C1 as stated fails: after [add "x"] on the enabled metric
    of the scenario the task is still on the queue; [test_has_value]
    answers False without running it and leaves it queued, although the
    answer that reflects the call is True. *)
Lemma test_read_skips_pending_add :
  let W := snd (StringListMetricType.add list1 "x" list1_world) in
  queue W = [add_set list1 "x"]
  /\ fst (StringListMetricType.test_has_value list1 None W) = Return false
  /\ queue (snd (StringListMetricType.test_has_value list1 None W))
     = [add_set list1 "x"]
  /\ fst (StringListMetricType.test_has_value list1 None
            (@Dispatcher.drain scenario_limits W)) = Return true
  /\ fst (StringListMetricType.test_get_value list1 None W)
     = Raise (ValueError "metric has no value")
  /\ fst (StringListMetricType.test_get_value list1 None
            (@Dispatcher.drain scenario_limits W)) = Return ["x"].
Proof. repeat split; reflexivity. Qed.

(** ** What a set stores *)

Section set_facts.
Context `{Limits}.

Lemma count_read_same h kind p E1 E2 :
  registry E1 = registry E2 -> errors E1 = errors E2 ->
  Engine.testGetNumRecordedErrors h kind p E1
  = Engine.testGetNumRecordedErrors h kind p E2.
Proof.
  intros Hreg Herr. unfold Engine.testGetNumRecordedErrors, ErrorRecorder.count.
  by rewrite Hreg, Herr.
Qed.

(** The engine after a native [set] on a live handle, read back. *)
Lemma set_value_read h def values p E :
  registry E !! h = Some def -> p ∈ sendInPings def ->
  Engine.testGetValue h p (Engine.set h values E)
  = Some (fst (Validator.validate values)).
Proof.
  intros Hreg Hp. rewrite (Engine_set_update_all h def) by assumption.
  rewrite (testGetValue_live _ def) by (by rewrite update_all_registry).
  destruct (getValue_update_all_in def (replace_step values)
              (sendInPings def) p E Hp) as [cur Hcur].
  exact Hcur.
Qed.

Lemma set_count_read h def values kind p E :
  registry E !! h = Some def -> NoDup (sendInPings def) -> p ∈ sendInPings def ->
  Engine.testGetNumRecordedErrors h kind p (Engine.set h values E)
  = Engine.testGetNumRecordedErrors h kind p E
    + occurrences kind (snd (Validator.validate values)).
Proof.
  intros Hreg Hnd Hp. rewrite (Engine_set_update_all h def) by assumption.
  rewrite (testGetNumRecordedErrors_live _ def)
    by (by rewrite update_all_registry).
  rewrite (testGetNumRecordedErrors_live _ def) by assumption.
  by rewrite count_update_all_NoDup.
Qed.

Lemma set_quiet h values E :
  snd (Validator.validate values) = [] ->
  errors (Engine.set h values E) = errors E.
Proof.
  intros Hq. destruct (registry E !! h) as [def|] eqn:Hreg.
  - rewrite (Engine_set_update_all h def) by assumption.
    by apply errors_update_all_quiet.
  - unfold Engine.set. by rewrite Hreg.
Qed.

End set_facts.

(** C5.  On an enabled, registered metric, [set v] with [v] within both
    limits, read back once the worker has caught up, gives exactly [v]
    (order and duplicates as given) for every destination ping, and records
    no error: every counter reads as it would have without the call. *)
Theorem set_then_get_round_trip `{Limits}
        (self : StringListMetricType) (h : Z) (def : MetricDefinition)
        (values : list string) (W : World) :
  live W self h def -> _disabled self = false ->
  length values <= MAX_LIST_LENGTH -> Forall short values ->
  let W' := Dispatcher.drain (snd (StringListMetricType.set self values W)) in
  (forall ping p,
      default_ping self ping = Some p -> p ∈ sendInPings def ->
      fst (StringListMetricType.test_get_value self ping W') = Return values)
  /\ (forall kind ping,
         fst (StringListMetricType.test_get_num_recorded_errors self kind ping W')
         = fst (StringListMetricType.test_get_num_recorded_errors self kind ping
                  (Dispatcher.drain W)))
  /\ errors (engine W') = errors (engine (Dispatcher.drain W)).
Proof.
  intros Hlive Hd Hlen Hshort W'. subst W'.
  destruct (live_drain W self h def Hlive) as [Hh Hreg].
  pose proof (validate_within values Hlen Hshort) as Hval.
  rewrite (set_then_drain self h) by assumption.
  split; [| split].
  - intros ping p Hping Hp.
    rewrite test_get_value_unfold, Hping, Hh.
    rewrite (set_then_drain self h) by assumption.
    rewrite (set_value_read h def) by assumption.
    by rewrite Hval.
  - intros kind ping.
    rewrite !test_get_num_recorded_errors_unfold, Hh.
    destruct (default_ping self ping) as [p|]; [| reflexivity].
    rewrite (set_then_drain self h) by assumption. simpl. do 2 f_equal.
    apply count_read_same.
    + apply Engine_set_registry.
    + apply set_quiet. by rewrite Hval.
  - apply set_quiet. by rewrite Hval.
Qed.

Lemma set_then_get_round_trip_witness :
  fst (StringListMetricType.test_get_value list1 None
         (@Dispatcher.drain scenario_limits
            (snd (StringListMetricType.set list1 ["x"; "y"; "x"] list1_world))))
  = Return ["x"; "y"; "x"].
Proof.
  pose proof (@set_then_get_round_trip scenario_limits
                list1 1%Z list1_def ["x"; "y"; "x"] list1_world) as Hw.
  simpl in Hw.
  refine (proj1 (Hw _ _ _ _) None "metrics" _ _).
  - split; reflexivity.
  - reflexivity.
  - vm_compute. lia.
  - repeat constructor; vm_compute; lia.
  - reflexivity.
  - by apply list_elem_of_here.
Defined.

(** C4, as the engine has it.  On an enabled, registered metric with
    distinct destination pings, [set v] with [v] longer than
    MAX_LIST_LENGTH and no entry longer than MAX_STRING_LENGTH stores, once
    the worker has caught up, exactly the first MAX_LIST_LENGTH entries of
    [v] for every destination ping, and the InvalidOverflow counter of that
    ping is one more than it would have been without the call; the counters
    of the other kinds are not changed. *)
Theorem set_overflow_keeps_first `{Limits}
        (self : StringListMetricType) (h : Z) (def : MetricDefinition)
        (values : list string) (W : World) :
  live W self h def -> _disabled self = false -> NoDup (sendInPings def) ->
  MAX_LIST_LENGTH < length values -> Forall short values ->
  let W0 := Dispatcher.drain W in
  let W' := Dispatcher.drain (snd (StringListMetricType.set self values W)) in
  forall ping p,
    default_ping self ping = Some p -> p ∈ sendInPings def ->
    fst (StringListMetricType.test_get_value self ping W')
    = Return (take MAX_LIST_LENGTH values)
    /\ fst (StringListMetricType.test_get_num_recorded_errors
              self InvalidOverflow ping W')
       = Return (Z.of_nat (Engine.testGetNumRecordedErrors
                             h InvalidOverflow p (engine W0)) + 1)%Z
    /\ (forall kind, kind <> InvalidOverflow ->
          fst (StringListMetricType.test_get_num_recorded_errors self kind ping W')
          = fst (StringListMetricType.test_get_num_recorded_errors self kind ping W0)).
Proof.
  intros Hlive Hd Hnd Hlen Hshort W0 W' ping p Hping Hp. subst W0 W'.
  destruct (live_drain W self h def Hlive) as [Hh Hreg].
  pose proof (validate_overflow values Hlen Hshort) as Hval.
  split; [| split].
  - rewrite test_get_value_unfold, Hping, Hh.
    rewrite (set_then_drain self h) by assumption.
    rewrite (set_value_read h def) by assumption.
    by rewrite Hval.
  - rewrite test_get_num_recorded_errors_unfold, Hping, Hh.
    rewrite (set_then_drain self h) by assumption.
    rewrite (set_count_read h def) by assumption.
    rewrite Hval. simpl. f_equal. unfold occurrences. simpl. lia.
  - intros kind Hkind.
    rewrite !test_get_num_recorded_errors_unfold, Hping, Hh.
    rewrite (set_then_drain self h) by assumption.
    rewrite (set_count_read h def) by assumption.
    rewrite validate_kinds by assumption. simpl. do 2 f_equal. lia.
Qed.

Lemma set_overflow_keeps_first_witness :
  fst (StringListMetricType.test_get_value list1 None
         (@Dispatcher.drain scenario_limits
            (snd (StringListMetricType.set list1 (replicate 50 "a") list1_world))))
  = Return (replicate 20 "a")
  /\ fst (StringListMetricType.test_get_num_recorded_errors
            list1 InvalidOverflow None
            (@Dispatcher.drain scenario_limits
               (snd (StringListMetricType.set list1 (replicate 50 "a") list1_world))))
     = Return 1%Z.
Proof.
  pose proof (@set_overflow_keeps_first scenario_limits
                list1 1%Z list1_def (replicate 50 "a") list1_world) as Hw.
  simpl in Hw.
  assert (live list1_world list1 1%Z list1_def) as Hlive by (split; reflexivity).
  assert (NoDup ["metrics"]) as Hnd by (repeat constructor; by intros ?%elem_of_nil).
  assert (Forall (@short scenario_limits) (replicate 50 "a")) as Hshort
    by (apply Forall_replicate; vm_compute; lia).
  specialize (Hw Hlive eq_refl Hnd ltac:(vm_compute; lia) Hshort
                 None "metrics" eq_refl ltac:(by apply list_elem_of_here)).
  destruct Hw as (Hv & He & _). split; [exact Hv | exact He].
Defined.

(** C4 as stated fails for a list with an entry that is too
    long: of the 21 entries, the first of 51 letters, [set] stores the
    first 20 with the first cut to 50 letters, which is not the first 20
    entries of the list, and it records two overflows, not one. *)
Lemma set_overflow_with_long_entry :
  let v := letters 51 :: replicate 20 "b" in
  let W' := @Dispatcher.drain scenario_limits
              (snd (StringListMetricType.set list1 v list1_world)) in
  length v = 21
  /\ fst (StringListMetricType.test_get_value list1 None W')
     = Return (letters 50 :: replicate 19 "b")
  /\ fst (StringListMetricType.test_get_value list1 None W') <> Return (take 20 v)
  /\ fst (StringListMetricType.test_get_num_recorded_errors
            list1 InvalidOverflow None W') = Return 2%Z.
Proof.
  split; [reflexivity |]. split; [reflexivity |].
  split; [| reflexivity].
  vm_compute. discriminate.
Qed.

(** ** Two adds and one set *)

Section add_facts.
Context `{Limits}.

(** On a ping that holds nothing, appending [a] and then [b] is writing
    the list of the two. *)
Lemma append_append_step (a b : string) (cur : option (list string)) :
  1 <= MAX_LIST_LENGTH -> short a -> short b -> default [] cur = [] ->
  then_step (append_step [a]) (append_step [b]) cur = replace_step [a; b] cur.
Proof.
  intros Hmax Ha Hb Hcur. unfold then_step, append_step, replace_step.
  rewrite Hcur.
  rewrite (validate_within [a]) by (simpl; auto).
  cbn -[Validator.validate].
  rewrite (validate_within [a]) by (simpl; auto).
  rewrite (validate_within [b]) by (simpl; auto).
  cbn -[Validator.validate].
  by destruct (Validator.validate [a; b]).
Qed.

Lemma add_add_set_engine h def a b E :
  registry E !! h = Some def -> NoDup (sendInPings def) ->
  1 <= MAX_LIST_LENGTH -> short a -> short b ->
  (forall p, p ∈ sendInPings def ->
     default [] (Engine.testGetValue h p E) = []) ->
  Engine.add h b (Engine.add h a E) = Engine.set h [a; b] E.
Proof.
  intros Hreg Hnd Hmax Ha Hb Hempty.
  rewrite (Engine_add_update_all h def _ E) by assumption.
  rewrite (Engine_add_update_all h def)
    by (by rewrite update_all_registry).
  rewrite (Engine_set_update_all h def) by assumption.
  rewrite update_all_fuse by assumption.
  apply update_all_ext; [assumption |].
  intros p Hp. apply append_append_step; try assumption.
  rewrite <- (testGetValue_live h def) by assumption. by apply Hempty.
Qed.

End add_facts.

(** C6, as the engine has it.  On an enabled, registered metric with distinct destination pings
    whose stored list is empty (or absent) for each of them, and with a
    list limit of at least one entry, [add a] followed by [add b], for [a]
    and [b] within the string limit, leaves the engine, once the worker has
    caught up, in the very state in which the single call [set [a; b]]
    leaves it: the same lists, with [a] before [b], and the same counters. *)
Theorem add_add_is_set `{Limits}
        (self : StringListMetricType) (h : Z) (def : MetricDefinition)
        (a b : string) (W : World) :
  live W self h def -> _disabled self = false -> NoDup (sendInPings def) ->
  1 <= MAX_LIST_LENGTH -> short a -> short b ->
  (forall p, p ∈ sendInPings def ->
     default [] (Engine.testGetValue h p (engine (Dispatcher.drain W))) = []) ->
  let W2 := Dispatcher.drain
              (snd (StringListMetricType.add self b
                      (snd (StringListMetricType.add self a W)))) in
  let W1 := Dispatcher.drain (snd (StringListMetricType.set self [a; b] W)) in
  engine W2 = engine W1
  /\ queue W2 = queue W1
  /\ (2 <= MAX_LIST_LENGTH ->
      forall ping p,
        default_ping self ping = Some p -> p ∈ sendInPings def ->
        fst (StringListMetricType.test_get_value self ping W2) = Return [a; b]).
Proof.
  intros Hlive Hd Hnd Hmax Ha Hb Hempty W2 W1. subst W2 W1.
  destruct (live_drain W self h def Hlive) as [Hh Hreg].
  assert (engine (Dispatcher.drain
                    (snd (StringListMetricType.add self b
                            (snd (StringListMetricType.add self a W)))))
          = engine (Dispatcher.drain
                      (snd (StringListMetricType.set self [a; b] W)))) as HE.
  { rewrite (add_then_drain self h), (add_then_drain self h),
      (set_then_drain self h) by assumption.
    by apply (add_add_set_engine h def). }
  split; [exact HE |]. split; [by rewrite !drain_queue |].
  intros Hmax2 ping p Hping Hp.
  rewrite test_get_value_unfold, Hping, Hh, HE.
  rewrite (set_then_drain self h) by assumption.
  rewrite (set_value_read h def) by assumption.
  rewrite validate_within; [reflexivity | simpl; lia | auto].
Qed.

Lemma add_add_is_set_witness :
  engine (@Dispatcher.drain scenario_limits
            (snd (StringListMetricType.add list1 "y"
                    (snd (StringListMetricType.add list1 "x" list1_world)))))
  = engine (@Dispatcher.drain scenario_limits
              (snd (StringListMetricType.set list1 ["x"; "y"] list1_world)))
  /\ fst (StringListMetricType.test_get_value list1 None
            (@Dispatcher.drain scenario_limits
               (snd (StringListMetricType.add list1 "y"
                       (snd (StringListMetricType.add list1 "x" list1_world))))))
     = Return ["x"; "y"].
Proof.
  pose proof (@add_add_is_set scenario_limits
                list1 1%Z list1_def "x" "y" list1_world) as Hw.
  simpl in Hw.
  assert (live list1_world list1 1%Z list1_def) as Hlive by (split; reflexivity).
  assert (NoDup ["metrics"]) as Hnd by (repeat constructor; by intros ?%elem_of_nil).
  specialize (Hw Hlive eq_refl Hnd ltac:(vm_compute; lia)
                 ltac:(vm_compute; lia) ltac:(vm_compute; lia)).
  destruct Hw as (HE & _ & Hv).
  - intros p Hp. apply list_elem_of_singleton in Hp. subst p. reflexivity.
  - split; [exact HE |].
    apply (Hv ltac:(vm_compute; lia) None "metrics" eq_refl).
    by apply list_elem_of_here.
Defined.

(** C6 as stated fails in two ways.  On a metric whose ping is listed
    twice, each [add] appends once per listing, so [add "x"; add "y"] reads
    back x, x, y, y where [set ["x"; "y"]] reads back x, y.  And with a list
    limit of zero the two adds count two overflows where the one set counts
    one. *)
Lemma add_add_differs_from_set :
  (let W2 := @Dispatcher.drain scenario_limits
               (snd (StringListMetricType.add list1_twice "y"
                       (snd (StringListMetricType.add list1_twice "x"
                               list1_twice_world)))) in
   let W1 := @Dispatcher.drain scenario_limits
               (snd (StringListMetricType.set list1_twice ["x"; "y"]
                       list1_twice_world)) in
   fst (StringListMetricType.__init__ false "tags" Ping "list1"
          ["metrics"; "metrics"] World_empty) = Return list1_twice
   /\ fst (StringListMetricType.test_has_value list1_twice None list1_twice_world)
      = Return false
   /\ fst (StringListMetricType.test_get_value list1_twice None W2)
      = Return ["x"; "x"; "y"; "y"]
   /\ fst (StringListMetricType.test_get_value list1_twice None W1)
      = Return ["x"; "y"]
   /\ engine W2 <> engine W1)
  /\ (let W2 := @Dispatcher.drain no_room_limits
                  (snd (StringListMetricType.add list1 "y"
                          (snd (StringListMetricType.add list1 "x" list1_world)))) in
      let W1 := @Dispatcher.drain no_room_limits
                  (snd (StringListMetricType.set list1 ["x"; "y"] list1_world)) in
      fst (StringListMetricType.test_get_num_recorded_errors
             list1 InvalidOverflow None W2) = Return 2%Z
      /\ fst (StringListMetricType.test_get_num_recorded_errors
                list1 InvalidOverflow None W1) = Return 1%Z
      /\ engine W2 <> engine W1).
Proof.
  split.
  - split; [reflexivity |]. split; [reflexivity |].
    split; [reflexivity |]. split; [reflexivity |].
    intros Heq.
    assert (Engine.testGetValue 1 "metrics"
              (engine (@Dispatcher.drain scenario_limits
                 (snd (StringListMetricType.add list1_twice "y"
                         (snd (StringListMetricType.add list1_twice "x"
                                 list1_twice_world))))))
            = Some ["x"; "y"]) as Hread by (rewrite Heq; reflexivity).
    vm_compute in Hread. discriminate.
  - split; [reflexivity |]. split; [reflexivity |].
    intros Heq.
    assert (Engine.testGetNumRecordedErrors 1 InvalidOverflow "metrics"
              (engine (@Dispatcher.drain no_room_limits
                 (snd (StringListMetricType.add list1 "y"
                         (snd (StringListMetricType.add list1 "x" list1_world))))))
            = 1) as Hread by (rewrite Heq; reflexivity).
    vm_compute in Hread. discriminate.
Qed.

(** The two recording scenarios of the specification, run on the model. *)
Example scenario_add_add :
  let W := @Dispatcher.drain scenario_limits
             (snd (StringListMetricType.add list1 "y"
                     (snd (StringListMetricType.add list1 "x" list1_world)))) in
  fst (StringListMetricType.test_get_value list1 (Some "metrics") W)
  = Return ["x"; "y"]
  /\ fst (StringListMetricType.test_get_num_recorded_errors
            list1 InvalidOverflow (Some "metrics") W) = Return 0%Z.
Proof. split; reflexivity. Qed.

Example scenario_set_fifty :
  let W := @Dispatcher.drain scenario_limits
             (snd (StringListMetricType.set list1 (replicate 50 "a") list1_world)) in
  fst (StringListMetricType.test_get_value list1 (Some "metrics") W)
  = Return (replicate 20 "a")
  /\ fst (StringListMetricType.test_get_num_recorded_errors
            list1 InvalidOverflow (Some "metrics") W) = Return 1%Z.
Proof. split; reflexivity. Qed.

(** ** Further properties of the class *)

Section more_dispatcher_facts.
Context `{Limits}.

Lemma call_calls (func : Task) (W : World) :
  calls (snd (Closure.call func W)) = calls W ++ Task_native func.
Proof.
  destruct func as [self v | self v]; simpl; unfold bind, self_handle;
    destruct (_handle self); simpl; by rewrite ?app_nil_r.
Qed.

Lemma Task_effect_native (func : Task) (E : Engine) :
  Task_effect func E = Task_native_effect func E.
Proof.
  destruct func as [self v | self v]; simpl;
    destruct (_handle self) as [h|] eqn:Hh.
  - by apply Task_effect_add.
  - unfold Task_effect. simpl. unfold bind, self_handle. by rewrite Hh.
  - by apply Task_effect_set.
  - unfold Task_effect. simpl. unfold bind, self_handle. by rewrite Hh.
Qed.

Lemma step_calls func rest W :
  queue W = func :: rest ->
  calls (Dispatcher.step W) = calls W ++ Task_native func.
Proof.
  intros Hq. unfold Dispatcher.step. rewrite Hq. by rewrite call_calls.
Qed.

Lemma iter_step_calls (ts : list Task) :
  forall W, queue W = ts ->
    calls (Nat.iter (length ts) Dispatcher.step W)
    = calls W ++ flat_map Task_native ts.
Proof.
  induction ts as [|func ts IH]; intros W Hq.
  - simpl. by rewrite app_nil_r.
  - change (length (func :: ts)) with (S (length ts)).
    rewrite Nat.iter_succ_r.
    destruct (step_cons func ts W Hq) as [Hq' _].
    rewrite (IH (Dispatcher.step W) Hq'), (step_calls func ts W Hq).
    simpl. by rewrite <- app_assoc.
Qed.

Lemma drain_calls (W : World) :
  calls (Dispatcher.drain W) = calls W ++ flat_map Task_native (queue W).
Proof. by apply iter_step_calls. Qed.

Lemma foldl_Task_effect_native (ts : list Task) (E : Engine) :
  foldl (fun E' func => Task_effect func E') E ts
  = foldl (fun E' func => Task_native_effect func E') E ts.
Proof. apply foldl_ext_all. intros E' func. apply Task_effect_native. Qed.

End more_dispatcher_facts.

Lemma Recording_call_world (r : Recording) (W : World) :
  Recording_call r W
  = (Return tt,
     {| engine := engine W;
        queue := queue W ++
                 (if Recording_enabled r then [Recording_task r] else []);
        calls := calls W |}).
Proof.
  destruct W as [E q c].
  destruct r as [self v | self v]; simpl;
    unfold StringListMetricType.add, StringListMetricType.set;
    destruct (_disabled self); simpl; unfold ret, Dispatcher.launch; simpl;
    by rewrite ?app_nil_r.
Qed.

Lemma Recording_run_world (rs : list Recording) :
  forall W,
    Recording_run rs W
    = {| engine := engine W;
         queue := queue W ++ (Recording_task <$> List.filter Recording_enabled rs);
         calls := calls W |}.
Proof.
  induction rs as [|r rs IH]; intros W.
  - destruct W. simpl. by rewrite app_nil_r.
  - simpl. rewrite IH, Recording_call_world. simpl.
    destruct (Recording_enabled r); simpl.
    + by rewrite <- app_assoc.
    + by rewrite app_nil_r.
Qed.

(** X1.  A sequence of [add] and [set] calls, on any objects, only queues:
    every call returns normally, the engine and the trace of native calls
    are as before, and the queue has grown by the closures of exactly the
    calls made on enabled objects, in the order of the calls. *)
Theorem recording_sequence_only_queues (rs : list Recording) (W : World) :
  (forall r W', fst (Recording_call r W') = Return tt)
  /\ engine (Recording_run rs W) = engine W
  /\ calls (Recording_run rs W) = calls W
  /\ queue (Recording_run rs W)
     = queue W ++ (Recording_task <$> List.filter Recording_enabled rs).
Proof.
  split.
  - intros r W'. by rewrite Recording_call_world.
  - by rewrite Recording_run_world.
Qed.

(** X2.  Once the worker has run the queue, a sequence of [add] and [set]
    calls has made one native call for each call on an enabled object that
    has its handle, in the order of the calls and after the calls of the
    tasks that were pending before: [glean_string_list_add] with the handle
    and the string, [glean_string_list_set] with the handle, the whole list
    and its length.  The engine is the one these native calls produce in
    that order, and nothing is left on the queue. *)
Theorem recording_sequence_reaches_engine_in_order `{Limits}
        (rs : list Recording) (W : World) :
  let queued := Recording_task <$> List.filter Recording_enabled rs in
  let W' := Dispatcher.drain (Recording_run rs W) in
  queue W' = []
  /\ calls W' = calls (Dispatcher.drain W) ++ flat_map Task_native queued
  /\ engine W'
     = foldl (fun E func => Task_native_effect func E)
             (engine (Dispatcher.drain W)) queued.
Proof.
  intros queued W'. subst queued W'.
  split; [apply drain_queue |]. split.
  - rewrite !drain_calls, Recording_run_world. simpl.
    by rewrite flat_map_app, app_assoc.
  - rewrite !drain_engine, Recording_run_world. simpl.
    by rewrite foldl_app, !foldl_Task_effect_native.
Qed.

(** X3.  How the three test reads can fail.  [test_has_value] and
    [test_get_num_recorded_errors] fail only with IndexError, exactly when
    no ping is given and [_send_in_pings] is empty, or with AttributeError,
    exactly when a ping is found and the object has no [_handle]; the
    missing ping is reported first.  A read that fails in one of these two
    ways has made no native call and left the world as it was;
    [test_get_value] fails in the same two cases in the same way, and
    otherwise only with ValueError. *)
Theorem test_reads_failures (self : StringListMetricType) (kind : ErrorType)
        (ping : option string) (W : World) :
  let has := StringListMetricType.test_has_value self ping W in
  let num := StringListMetricType.test_get_num_recorded_errors self kind ping W in
  let get := StringListMetricType.test_get_value self ping W in
  ((ping = None /\ _send_in_pings self = []) <->
   fst has = Raise IndexError)
  /\ ((default_ping self ping <> None /\ _handle self = None) <->
      fst has = Raise AttributeError)
  /\ (forall e, fst has = Raise e ->
        (e = IndexError \/ e = AttributeError) /\ snd has = W)
  /\ (forall e, fst has = Raise e <-> fst num = Raise e)
  /\ (forall e, fst num = Raise e -> snd num = W)
  /\ (forall e, fst has = Raise e -> get = (Raise e, W))
  /\ (forall e, fst get = Raise e ->
        fst has = Raise e \/ e = ValueError "metric has no value").
Proof.
  intros has num get. subst has num get.
  rewrite test_has_value_unfold, test_get_value_unfold,
    test_get_num_recorded_errors_unfold.
  assert (default_ping self ping = None
          <-> ping = None /\ _send_in_pings self = []) as Hnone.
  { unfold default_ping. destruct ping as [p|].
    - split; [discriminate | by intros [? _]].
    - destruct (_send_in_pings self); simpl; split; try discriminate; auto.
      by intros [_ ?]. }
  destruct (default_ping self ping) as [p|] eqn:Hp;
    [destruct (_handle self) as [h|] eqn:Hh |]; simpl;
    (split; [| split; [| split; [| split; [| split; [| split]]]]]).
  - split; [| discriminate]. intros Hnd. apply Hnone in Hnd. discriminate.
  - split; [by intros [_ ?] | discriminate].
  - discriminate.
  - intros e. split; discriminate.
  - discriminate.
  - discriminate.
  - intros e He.
    destruct (Engine.testGetValue h p (engine W)); simpl in He;
      [discriminate | injection He as <-; by right].
  - split; [| discriminate]. intros Hnd. apply Hnone in Hnd. discriminate.
  - split; [reflexivity | by split].
  - intros e [= <-]. split; [by right | reflexivity].
  - intros e. split; intros [= <-]; reflexivity.
  - reflexivity.
  - by intros e [= <-].
  - intros e [= <-]. by left.
  - split; [reflexivity |]. intros _. by apply Hnone.
  - split; [by intros [? _] | discriminate].
  - intros e [= <-]. split; [by left | reflexivity].
  - intros e. split; intros [= <-]; reflexivity.
  - reflexivity.
  - by intros e [= <-].
  - intros e [= <-]. by left.
Qed.

Lemma test_reads_failures_witness :
  fst (StringListMetricType.test_has_value no_pings None list1_world)
  = Raise IndexError
  /\ fst (StringListMetricType.test_has_value unfinished None list1_world)
     = Raise AttributeError
  /\ StringListMetricType.test_get_value unfinished None list1_world
     = (Raise AttributeError, list1_world).
Proof.
  pose proof (test_reads_failures no_pings InvalidOverflow None list1_world)
    as (Hindex & _).
  pose proof (test_reads_failures unfinished InvalidOverflow None list1_world)
    as (_ & Hattr & _ & _ & _ & Hget & _).
  simpl in Hindex, Hattr, Hget.
  assert (fst (StringListMetricType.test_has_value unfinished None list1_world)
          = Raise AttributeError) as Hfail.
  { apply Hattr. split; [discriminate | reflexivity]. }
  split; [apply Hindex; by split |].
  split; [exact Hfail |].
  apply Hget. exact Hfail.
Defined.

(** X4.  [test_has_value] is the guard of [test_get_value]: on the same
    object, ping and world, [test_get_value] returns a list exactly when
    [test_has_value] returns True, and raises ValueError("metric has no
    value") exactly when [test_has_value] returns False; in the latter case
    it has made the has-value call and no other. *)
Theorem has_value_guards_get_value (self : StringListMetricType)
        (ping : option string) (W : World) :
  let has := StringListMetricType.test_has_value self ping W in
  let get := StringListMetricType.test_get_value self ping W in
  (fst has = Return true <-> exists l, fst get = Return l)
  /\ (fst has = Return false <->
      fst get = Raise (ValueError "metric has no value"))
  /\ (fst has = Return false -> snd get = snd has).
Proof.
  intros has get. subst has get.
  rewrite test_has_value_unfold, test_get_value_unfold.
  destruct (default_ping self ping) as [p|];
    [destruct (_handle self) as [h|] |]; simpl.
  - unfold Engine.testHasValue.
    destruct (Engine.testGetValue h p (engine W)) as [l|]; simpl.
    + split; [split; eauto |]. split; [split; discriminate | discriminate].
    + split; [split; [discriminate | by intros [? ?]] |].
      split; [split; reflexivity | reflexivity].
  - split; [split; [discriminate | by intros [? ?]] |].
    split; [split; discriminate | discriminate].
  - split; [split; [discriminate | by intros [? ?]] |].
    split; [split; discriminate | discriminate].
Qed.

Lemma has_value_guards_get_value_witness :
  fst (StringListMetricType.test_get_value list1 None list1_world)
  = Raise (ValueError "metric has no value")
  /\ snd (StringListMetricType.test_get_value list1 None list1_world)
     = snd (StringListMetricType.test_has_value list1 None list1_world)
  /\ fst (StringListMetricType.test_has_value list1 None
            (@Dispatcher.drain scenario_limits
               (snd (StringListMetricType.add list1 "x" list1_world))))
     = Return true.
Proof.
  pose proof (has_value_guards_get_value list1 None list1_world)
    as (_ & Hfalse & Hworld).
  pose proof (has_value_guards_get_value list1 None
                (@Dispatcher.drain scenario_limits
                   (snd (StringListMetricType.add list1 "x" list1_world))))
    as (Htrue & _).
  simpl in Hfalse, Hworld, Htrue.
  split; [apply Hfalse; reflexivity |].
  split; [apply Hworld; reflexivity |].
  apply Htrue. exists ["x"]. reflexivity.
Defined.

(** X5.  A test read uses the object only through its handle and the ping
    it consults: two objects with the same [_handle], asked about the same
    ping (given, or the first of their [_send_in_pings]), read the same in
    every world, whatever their [_disabled] flags and the rest of their
    ping lists. *)
Theorem test_reads_use_handle_and_ping (self self' : StringListMetricType)
        (kind : ErrorType) (ping ping' : option string) (W : World) :
  _handle self = _handle self' ->
  default_ping self ping = default_ping self' ping' ->
  StringListMetricType.test_has_value self ping W
  = StringListMetricType.test_has_value self' ping' W
  /\ StringListMetricType.test_get_value self ping W
     = StringListMetricType.test_get_value self' ping' W
  /\ StringListMetricType.test_get_num_recorded_errors self kind ping W
     = StringListMetricType.test_get_num_recorded_errors self' kind ping' W.
Proof.
  intros Hh Hp.
  rewrite !test_has_value_unfold, !test_get_value_unfold,
    !test_get_num_recorded_errors_unfold.
  by rewrite Hh, Hp.
Qed.

Lemma test_reads_use_handle_and_ping_witness :
  StringListMetricType.test_has_value list1_off None list1_world
  = StringListMetricType.test_has_value list1 (Some "metrics") list1_world.
Proof.
  pose proof (test_reads_use_handle_and_ping list1_off list1 InvalidOverflow
                None (Some "metrics") list1_world eq_refl eq_refl) as (Hw & _).
  exact Hw.
Defined.

(** ** Recording never fails *)

Section truncation_facts.
Context `{Limits}.

Lemma substring_length (n : nat) (s : string) :
  String.length (substring 0 n s) <= n.
Proof.
  revert s; induction n as [|n IH]; intros s.
  - by destruct s.
  - destruct s as [|c s]; simpl; [lia |]. specialize (IH s). lia.
Qed.

Lemma truncate_is_short (s : string) : short (Validator.truncate s).
Proof. apply substring_length. Qed.

Lemma occurrences_app (kind : ErrorType) (l1 l2 : list ErrorType) :
  occurrences kind (l1 ++ l2) = occurrences kind l1 + occurrences kind l2.
Proof. unfold occurrences. by rewrite List.filter_app, length_app. Qed.

Lemma occurrences_overflows {A} (l : list A) :
  occurrences InvalidOverflow ((fun _ => InvalidOverflow) <$> l) = length l.
Proof.
  unfold occurrences. induction l as [|x l IH]; [reflexivity |].
  simpl. f_equal. exact IH.
Qed.

(** The overflows of one validation: one for the list, one for each entry
    kept that is too long. *)
Lemma validate_overflows (l : list string) :
  occurrences InvalidOverflow (snd (Validator.validate l))
  = (if MAX_LIST_LENGTH <? length l then 1 else 0)
    + length (List.filter Validator.too_long (take MAX_LIST_LENGTH l)).
Proof.
  unfold Validator.validate. simpl.
  rewrite occurrences_app, occurrences_overflows.
  by destruct (MAX_LIST_LENGTH <? length l).
Qed.

Lemma take_singleton {A} (x : A) :
  1 <= MAX_LIST_LENGTH -> take MAX_LIST_LENGTH [x] = [x].
Proof. intros Hmax. apply take_ge. simpl. lia. Qed.

Lemma add_value_read h def value p E :
  registry E !! h = Some def -> NoDup (sendInPings def) -> p ∈ sendInPings def ->
  Engine.testGetValue h p (Engine.add h value E)
  = Some (Validator.truncate <$>
            take MAX_LIST_LENGTH
              (default [] (Engine.testGetValue h p E)
               ++ (Validator.truncate <$> take MAX_LIST_LENGTH [value]))).
Proof.
  intros Hreg Hnd Hp. rewrite (Engine_add_update_all h def) by assumption.
  rewrite (testGetValue_live _ def) by (by rewrite update_all_registry).
  rewrite getValue_update_all_NoDup by assumption.
  by rewrite (testGetValue_live h def) by assumption.
Qed.

Lemma add_count_read h def value p E :
  registry E !! h = Some def -> NoDup (sendInPings def) -> p ∈ sendInPings def ->
  Engine.testGetNumRecordedErrors h InvalidOverflow p (Engine.add h value E)
  = Engine.testGetNumRecordedErrors h InvalidOverflow p E
    + occurrences InvalidOverflow (snd (Validator.validate [value]))
    + occurrences InvalidOverflow
        (snd (Validator.validate
                (default [] (Engine.testGetValue h p E)
                 ++ (Validator.truncate <$> take MAX_LIST_LENGTH [value])))).
Proof.
  intros Hreg Hnd Hp. rewrite (Engine_add_update_all h def) by assumption.
  rewrite (testGetNumRecordedErrors_live _ def)
    by (by rewrite update_all_registry).
  rewrite (testGetNumRecordedErrors_live _ def) by assumption.
  rewrite count_update_all_NoDup by assumption.
  rewrite (testGetValue_live h def) by assumption.
  change (snd (append_step [value] (MetricStore.getValue def p E)))
    with (snd (Validator.validate [value])
          ++ snd (Validator.validate
                    (default [] (MetricStore.getValue def p E)
                     ++ (Validator.truncate <$> take MAX_LIST_LENGTH [value])))).
  rewrite occurrences_app. lia.
Qed.

End truncation_facts.

(** C8.  [add] and [set] return normally for every object, argument and
    world, and so do the closures they queue when the worker calls them.
    Input beyond the limits is not rejected but stored truncated and
    counted: once the worker has caught up, every destination ping of an
    enabled, registered metric holds a value.  After [set] it is the first
    MAX_LIST_LENGTH entries given, each cut to MAX_STRING_LENGTH characters;
    after [add] it is the list held before with the string, so cut,
    appended, cut again to MAX_LIST_LENGTH entries.  With distinct
    destination pings the InvalidOverflow counter of the ping has grown by
    one for each list that was cut and one for each entry that was cut; in
    particular an [add] to an empty list stores the one string, cut if too
    long, and counts one overflow exactly when it was. *)
Theorem recording_never_raises `{Limits}
        (self : StringListMetricType) (value : string) (values : list string)
        (W : World) :
  fst (StringListMetricType.add self value W) = Return tt
  /\ fst (StringListMetricType.set self values W) = Return tt
  /\ (forall h W', _handle self = Some h ->
        fst (Closure.call (add_set self value) W') = Return tt
        /\ fst (Closure.call (set_set self values) W') = Return tt)
  /\ (forall h def p,
        live W self h def -> _disabled self = false -> p ∈ sendInPings def ->
        Engine.testHasValue h p
          (engine (Dispatcher.drain (snd (StringListMetricType.add self value W))))
        = true
        /\ Engine.testGetValue h p
             (engine (Dispatcher.drain (snd (StringListMetricType.set self values W))))
           = Some (fst (Validator.validate values)))
  /\ (forall h def p,
        live W self h def -> _disabled self = false ->
        NoDup (sendInPings def) -> p ∈ sendInPings def ->
        let E0 := engine (Dispatcher.drain W) in
        let Eadd :=
          engine (Dispatcher.drain (snd (StringListMetricType.add self value W))) in
        let Eset :=
          engine (Dispatcher.drain (snd (StringListMetricType.set self values W))) in
        let before := default [] (Engine.testGetValue h p E0) in
        let new := Validator.truncate <$> take MAX_LIST_LENGTH [value] in
        Engine.testGetValue h p Eset
        = Some (Validator.truncate <$> take MAX_LIST_LENGTH values)
        /\ Engine.testGetNumRecordedErrors h InvalidOverflow p Eset
           = Engine.testGetNumRecordedErrors h InvalidOverflow p E0
             + (if MAX_LIST_LENGTH <? length values then 1 else 0)
             + length (List.filter Validator.too_long
                         (take MAX_LIST_LENGTH values))
        /\ Engine.testGetValue h p Eadd
           = Some (Validator.truncate <$> take MAX_LIST_LENGTH (before ++ new))
        /\ Engine.testGetNumRecordedErrors h InvalidOverflow p Eadd
           = Engine.testGetNumRecordedErrors h InvalidOverflow p E0
             + ((if MAX_LIST_LENGTH <? 1 then 1 else 0)
                + length (List.filter Validator.too_long
                            (take MAX_LIST_LENGTH [value])))
             + ((if MAX_LIST_LENGTH <? length (before ++ new) then 1 else 0)
                + length (List.filter Validator.too_long
                            (take MAX_LIST_LENGTH (before ++ new))))
        /\ (1 <= MAX_LIST_LENGTH -> before = [] ->
            Engine.testGetValue h p Eadd
            = Some [substring 0 MAX_STRING_LENGTH value]
            /\ Engine.testGetNumRecordedErrors h InvalidOverflow p Eadd
               = Engine.testGetNumRecordedErrors h InvalidOverflow p E0
                 + (if MAX_STRING_LENGTH <? String.length value then 1 else 0))).
Proof.
  split; [apply add_returns |]. split; [apply set_returns |]. split.
  { intros h W' Hh. split; apply call_returns; simpl; eauto. }
  split.
  - intros h def p Hlive Hd Hp.
    destruct (live_drain W self h def Hlive) as [Hh Hreg].
    split.
    + rewrite (add_then_drain self h) by assumption.
      rewrite (Engine_add_update_all h def) by assumption.
      destruct (getValue_update_all_in def (append_step [value])
                  (sendInPings def) p (engine (Dispatcher.drain W)) Hp)
        as [cur Hcur].
      apply (testHasValue_Some _ _ _ (fst (append_step [value] cur))).
      rewrite (testGetValue_live _ def)
        by (by rewrite update_all_registry).
      exact Hcur.
    + rewrite (set_then_drain self h) by assumption.
      by apply (set_value_read h def).
  - intros h def p Hlive Hd Hnd Hp E0 Eadd Eset before new.
    destruct (live_drain W self h def Hlive) as [Hh Hreg].
    assert (Eset = Engine.set h values E0) as ->
        by (by apply set_then_drain).
    assert (Eadd = Engine.add h value E0) as ->
        by (by apply add_then_drain).
    assert (Engine.testGetValue h p (Engine.add h value E0)
            = Some (Validator.truncate <$> take MAX_LIST_LENGTH (before ++ new)))
      as Hadd by (by apply (add_value_read h def)).
    assert (Engine.testGetNumRecordedErrors h InvalidOverflow p
              (Engine.add h value E0)
            = Engine.testGetNumRecordedErrors h InvalidOverflow p E0
              + ((if MAX_LIST_LENGTH <? 1 then 1 else 0)
                 + length (List.filter Validator.too_long
                             (take MAX_LIST_LENGTH [value])))
              + ((if MAX_LIST_LENGTH <? length (before ++ new) then 1 else 0)
                 + length (List.filter Validator.too_long
                             (take MAX_LIST_LENGTH (before ++ new)))))
      as Hcount.
    { rewrite (add_count_read h def) by assumption.
      by rewrite !validate_overflows. }
    split; [by apply (set_value_read h def) |].
    split.
    { rewrite (set_count_read h def) by assumption.
      rewrite validate_overflows. lia. }
    split; [exact Hadd |]. split; [exact Hcount |].
    intros Hmax Hempty. rewrite Hadd, Hcount. subst new.
    rewrite Hempty, take_singleton by assumption. simpl.
    rewrite take_singleton by assumption. simpl.
    fold (Validator.truncate value).
    rewrite (truncate_short (Validator.truncate value))
      by apply truncate_is_short.
    rewrite (too_long_short (Validator.truncate value))
      by apply truncate_is_short.
    split; [reflexivity |].
    replace (MAX_LIST_LENGTH <? 1) with false
      by (symmetry; apply Nat.ltb_ge; lia).
    unfold Validator.too_long.
    destruct (MAX_STRING_LENGTH <? String.length value); simpl; lia.
Qed.

Lemma recording_never_raises_witness :
  let value := letters 51 in
  let values := letters 51 :: replicate 20 "b" in
  (fst (@Closure.call scenario_limits (add_set list1 value) list1_world)
   = Return tt
   /\ fst (@Closure.call scenario_limits (set_set list1 values) list1_world)
      = Return tt)
  /\ Engine.testHasValue 1 "metrics"
       (engine (@Dispatcher.drain scenario_limits
                  (snd (StringListMetricType.add list1 value list1_world))))
     = true
  /\ (Engine.testGetValue 1 "metrics"
        (engine (@Dispatcher.drain scenario_limits
                   (snd (StringListMetricType.set list1 values list1_world))))
      = Some (letters 50 :: replicate 19 "b")
      /\ Engine.testGetNumRecordedErrors 1 InvalidOverflow "metrics"
           (engine (@Dispatcher.drain scenario_limits
                      (snd (StringListMetricType.set list1 values list1_world))))
         = 2)
  /\ (Engine.testGetValue 1 "metrics"
        (engine (@Dispatcher.drain scenario_limits
                   (snd (StringListMetricType.add list1 value list1_world))))
      = Some [letters 50]
      /\ Engine.testGetNumRecordedErrors 1 InvalidOverflow "metrics"
           (engine (@Dispatcher.drain scenario_limits
                      (snd (StringListMetricType.add list1 value list1_world))))
         = 1).
Proof.
  intros value values.
  pose proof (@recording_never_raises scenario_limits
                list1 value values list1_world)
    as (_ & _ & Hcall & Hstored & Hexact).
  assert (live list1_world list1 1%Z list1_def) as Hlive by (split; reflexivity).
  assert (NoDup ["metrics"]) as Hnd
      by (repeat constructor; by intros ?%elem_of_nil).
  assert ("metrics" ∈ ["metrics"]) as Hp by (by apply list_elem_of_here).
  specialize (Hstored 1%Z list1_def "metrics" Hlive eq_refl Hp).
  specialize (Hexact 1%Z list1_def "metrics" Hlive eq_refl Hnd Hp).
  simpl in Hexact.
  destruct Hexact as (Hset & Hsetn & _ & _ & Hone).
  specialize (Hone ltac:(vm_compute; lia) eq_refl).
  split; [exact (Hcall 1%Z list1_world eq_refl) |].
  split; [apply Hstored |].
  split; [split; [exact Hset | exact Hsetn] |].
  split; [apply Hone | apply Hone].
Defined.

(** ** The test reads and the queue *)

Section partial_progress.
Context `{Limits}.

Lemma step_idle (W : World) : queue W = [] -> Dispatcher.step W = W.
Proof. intros Hq. unfold Dispatcher.step. by rewrite Hq. Qed.

(** After [k] steps of the worker the first [k] tasks have been applied, in
    order, and the others are still queued. *)
Lemma iter_step_partial (k : nat) :
  forall W,
    queue (Nat.iter k Dispatcher.step W) = drop k (queue W)
    /\ engine (Nat.iter k Dispatcher.step W)
       = foldl (fun E func => Task_native_effect func E) (engine W)
               (take k (queue W)).
Proof.
  induction k as [|k IH]; intros W.
  - simpl. by rewrite drop_0.
  - rewrite Nat.iter_succ_r.
    destruct (queue W) as [|func rest] eqn:Hq.
    + rewrite (step_idle W Hq). destruct (IH W) as [IHq IHE].
      rewrite IHq, IHE, Hq. by rewrite drop_nil, take_nil.
    + destruct (step_cons func rest W Hq) as [Hq' HE'].
      destruct (IH (Dispatcher.step W)) as [IHq IHE].
      rewrite IHq, IHE, Hq', HE'. simpl.
      by rewrite Task_effect_native.
Qed.

End partial_progress.

(** C1, as the code has it.  The three test reads never touch the
    dispatcher: each returns what the engine holds for the handle and the
    ping at the moment of the call, and leaves the engine and the queue as
    it finds them (only the trace of native calls grows).  So after any
    sequence of add and set calls of which the worker has run the first [k]
    tasks, a read returns the answer of the engine to which exactly those
    [k] tasks have been applied, in order; the tasks not yet run are not
    reflected and are still queued after the read. *)
Theorem test_reads_see_the_engine_as_it_is `{Limits}
        (self : StringListMetricType) (kind : ErrorType) (ping : option string)
        (p : string) (h : Z) :
  _handle self = Some h -> default_ping self ping = Some p ->
  (forall W,
      StringListMetricType.test_has_value self ping W
      = (Return (Engine.testHasValue h p (engine W)),
         traced W [native.glean_string_list_test_has_value h p])
      /\ StringListMetricType.test_get_num_recorded_errors self kind ping W
         = (Return (Z.of_nat (Engine.testGetNumRecordedErrors h kind p (engine W))),
            traced W [native.glean_string_list_test_get_num_recorded_errors
                        h (ErrorType_value kind) p])
      /\ fst (StringListMetricType.test_get_value self ping W)
         = match Engine.testGetValue h p (engine W) with
           | Some l => Return l
           | None => Raise (ValueError "metric has no value")
           end
      /\ engine (snd (StringListMetricType.test_get_value self ping W)) = engine W
      /\ queue (snd (StringListMetricType.test_get_value self ping W)) = queue W)
  /\ (forall W0 rs k,
        let tasks :=
          queue W0 ++ (Recording_task <$> List.filter Recording_enabled rs) in
        let W := Nat.iter k Dispatcher.step (Recording_run rs W0) in
        let E := foldl (fun E' func => Task_native_effect func E')
                       (engine W0) (take k tasks) in
        engine W = E
        /\ queue W = drop k tasks
        /\ fst (StringListMetricType.test_has_value self ping W)
           = Return (Engine.testHasValue h p E)
        /\ fst (StringListMetricType.test_get_value self ping W)
           = match Engine.testGetValue h p E with
             | Some l => Return l
             | None => Raise (ValueError "metric has no value")
             end
        /\ fst (StringListMetricType.test_get_num_recorded_errors self kind ping W)
           = Return (Z.of_nat (Engine.testGetNumRecordedErrors h kind p E))
        /\ queue (snd (StringListMetricType.test_has_value self ping W))
           = drop k tasks
        /\ queue (snd (StringListMetricType.test_get_value self ping W))
           = drop k tasks
        /\ queue (snd (StringListMetricType.test_get_num_recorded_errors
                         self kind ping W))
           = drop k tasks).
Proof.
  intros Hh Hp.
  assert (forall W,
      StringListMetricType.test_has_value self ping W
      = (Return (Engine.testHasValue h p (engine W)),
         traced W [native.glean_string_list_test_has_value h p])
      /\ StringListMetricType.test_get_num_recorded_errors self kind ping W
         = (Return (Z.of_nat (Engine.testGetNumRecordedErrors h kind p (engine W))),
            traced W [native.glean_string_list_test_get_num_recorded_errors
                        h (ErrorType_value kind) p])
      /\ fst (StringListMetricType.test_get_value self ping W)
         = match Engine.testGetValue h p (engine W) with
           | Some l => Return l
           | None => Raise (ValueError "metric has no value")
           end
      /\ engine (snd (StringListMetricType.test_get_value self ping W)) = engine W
      /\ queue (snd (StringListMetricType.test_get_value self ping W)) = queue W)
    as Hreads.
  { intros W.
    rewrite test_has_value_unfold, test_get_num_recorded_errors_unfold,
      test_get_value_unfold, Hp, Hh.
    split; [reflexivity |]. split; [reflexivity |].
    by destruct (Engine.testGetValue h p (engine W)). }
  split; [exact Hreads |].
  intros W0 rs k tasks W E.
  destruct (iter_step_partial k (Recording_run rs W0)) as [Hq HE].
  assert (queue (Recording_run rs W0) = tasks) as Htasks
      by (by rewrite Recording_run_world).
  assert (engine (Recording_run rs W0) = engine W0) as Hengine
      by (by rewrite Recording_run_world).
  rewrite Htasks in Hq, HE. rewrite Hengine in HE.
  change (queue W = drop k tasks) in Hq. change (engine W = E) in HE.
  destruct (Hreads W) as (Hhas & Hnum & Hget & _ & Hgetq).
  rewrite Hhas, Hnum, Hget, Hgetq. simpl. rewrite HE, Hq.
  by repeat split.
Qed.

Lemma test_reads_see_the_engine_as_it_is_witness :
  let W := @Dispatcher.step scenario_limits
             (snd (StringListMetricType.add list1 "y"
                     (snd (StringListMetricType.add list1 "x" list1_world)))) in
  queue W = [add_set list1 "y"]
  /\ fst (StringListMetricType.test_has_value list1 None W) = Return true
  /\ fst (StringListMetricType.test_get_value list1 None W) = Return ["x"]
  /\ fst (StringListMetricType.test_get_num_recorded_errors
            list1 InvalidOverflow None W) = Return 0%Z
  /\ queue (snd (StringListMetricType.test_get_value list1 None W))
     = [add_set list1 "y"].
Proof.
  intros W.
  pose proof (@test_reads_see_the_engine_as_it_is scenario_limits
                list1 InvalidOverflow None "metrics" 1%Z eq_refl eq_refl)
    as [_ Hrun].
  specialize (Hrun list1_world [rec_add list1 "x"; rec_add list1 "y"] 1).
  simpl in Hrun.
  destruct Hrun as (_ & Hq & Hhas & Hget & Hnum & _ & Hgetq & _).
  split; [exact Hq |]. split; [exact Hhas |]. split; [exact Hget |].
  split; [exact Hnum | exact Hgetq].
Defined.
